(** * PyMonitorLib: [monitor/lib/utils.py]

    A shallow embedding of the operating-system helpers of PyMonitorLib
    ([Callbacks], [Command], [Select], and the helpers for descriptors,
    identities and privileges) together with the properties that the
    design document states about them.

    Python objects mutated in place are modelled by explicit state
    passing; raised exceptions by the [outcome] type; the operating
    system (child processes, the clock, the readiness primitive,
    asynchronous interrupts) by explicit environment records that
    the functions consult at each library call. *)

From stdpp Require Import base option list gmap strings.
From Stdlib Require Import ZArith Lia.
From Stdlib Require Import Strings.Byte.

Local Open Scope Z_scope.

(** ** Python values and exceptions *)

(** The few shapes of Python object the module distinguishes. *)
Inductive pyobj :=
| PyNone
| PyBool (b : bool)
| PyInt (z : Z)
| PyStr (s : string)
| PyFunction (qualname : string).

(** [callable(obj)] *)
Definition callable (o : pyobj) : bool :=
  match o with
  | PyFunction _ => true
  | _ => false
  end.

(** [type(o).__name__] *)
Definition type_name (o : pyobj) : string :=
  match o with
  | PyNone => "NoneType"
  | PyBool _ => "bool"
  | PyInt _ => "int"
  | PyStr _ => "str"
  | PyFunction _ => "function"
  end.

(** Exceptions that travel through the module.  [ExecutorError] is the
    module's own type (imported from [.exceptions]); [ArgumentError]
    is [argparse]'s; the others are built-in.  [OSError] carries its
    [errno].  [UnicodeEncodeError] is a [ValueError] in Python; no
    clause of the module names either, so they are kept apart. *)
Inductive exn :=
| ExecutorError (msg : string)
| OSError (errno : Z)
| KeyboardInterrupt
| AttributeError (msg : string)
| TypeError (msg : string)
| KeyError (msg : string)
| ValueError (msg : string)
| ArgumentError (msg : string)
| OverflowError (msg : string)
| UnicodeEncodeError (msg : string)
| IndexError (msg : string).

Inductive outcome (A : Type) :=
| Return (a : A)
| Raise (e : exn).
Arguments Return {A} a.
Arguments Raise {A} e.

(** ** Code that raises and mutates

    A computation takes the world it runs in and gives back an outcome
    and the world it leaves.  The loops of the module are [while]
    loops; they are run with an iteration budget, and [None] says the
    budget ran out (the termination lemmas show that it never does). *)
Definition M (W A : Type) : Type := W → option (outcome A * W).

Definition ret {W A} (a : A) : M W A := λ w, Some (Return a, w).

Definition raise {W A} (e : exn) : M W A := λ w, Some (Raise e, w).

Definition bind {W A B} (m : M W A) (f : A → M W B) : M W B :=
  λ w, match m w with
       | Some (Return a, w') => f a w'
       | Some (Raise e, w') => Some (Raise e, w')
       | None => None
       end.

Definition get {W} : M W W := λ w, Some (Return w, w).

Definition modify {W} (f : W → W) : M W unit := λ w, Some (Return tt, f w).

Definition lift {W A} (o : outcome A) : M W A := λ w, Some (o, w).

Definition out_of_fuel {W A} : M W A := λ _, None.

Notation "x <- m ;; k" := (bind m (λ x, k))
  (at level 100, m at next level, right associativity).
Notation "m ;; k" := (bind m (λ _, k))
  (at level 100, right associativity).

(** [try: m except ...]: [handler e] is [None] when no clause matches
    [e], which then keeps propagating. *)
Definition try_except {W A} (m : M W A) (handler : exn → option (M W A))
    : M W A :=
  λ w, match m w with
       | Some (Raise e, w') =>
           match handler e with
           | Some h => h w'
           | None => Some (Raise e, w')
           end
       | r => r
       end.

(** [try: m finally: c]: [c] runs however [m] ends; an exception of
    [c] replaces the outcome of [m]. *)
Definition try_finally {W A} (m : M W A) (c : M W unit) : M W A :=
  λ w, match m w with
       | Some (r, w') =>
           match c w' with
           | Some (Return _, w'') => Some (r, w'')
           | Some (Raise e, w'') => Some (Raise e, w'')
           | None => None
           end
       | None => None
       end.

(** [for x in l: body(x)] *)
Fixpoint for_each {W A} (l : list A) (body : A → M W unit) : M W unit :=
  match l with
  | [] => ret tt
  | x :: l' => body x ;; for_each l' body
  end.

(** What a [try] statement hands to the code after it: either control
    falls through with a value, or a clause executed [return]. *)
Inductive flow (A R : Type) :=
| Fallthrough (a : A)
| Returned (r : R).
Arguments Fallthrough {A R} a.
Arguments Returned {A R} r.

(** ** Class [Callbacks]: the sub-command registry *)

(** The object handed to [Callbacks.__call__] is the host's sub-parser
    collection (an [argparse] sub-parsers action).  It is foreign to
    this module, which only calls [add_parser] on it and [add_argument]
    on the parser it gets back.  [T] is the collection, [P] a reference
    to one sub-parser living in it, [K] the keyword options forwarded
    by [**kwargs].  A call either raises, leaving the collection as it
    was, or yields the updated collection. *)
Class SubParsers (T P K : Type) := {
  add_parser : T → string → K → exn + (P * T);
  add_argument : T → P → string → exn + T
}.

Module Callbacks.
Section Registry.
Context {T P K : Type} `{!SubParsers T P K}.

(** Instance attributes set by [__init__]. *)
Record t := Build {
  command : string;
  callbacks : gmap string pyobj;
  parsers : option T
}.

Definition init (command : string) : t :=
  {| command := command; callbacks := ∅; parsers := None |}.

(** [__call__(self, parsers, callback)]: remember the sub-parser
    collection, then hand the registry to the user's callback. *)
Definition call (self : t) (parsers : T)
    (callback : t → outcome unit * t) : outcome unit * t :=
  callback {| command := command self;
              callbacks := callbacks self;
              parsers := Some parsers |}.

(** [for [k, _] in self.callbacks.items(): if name == k: raise ...] *)
Definition already_registered (self : t) (name : string) : bool :=
  existsb (λ kv : string * pyobj, String.eqb name kv.1)
          (map_to_list (callbacks self)).

(** [self.parsers.add_parser(name, **kwargs)]; attribute lookup on
    [None] raises [AttributeError]. *)
Definition parsers_add_parser (parsers : option T) (name : string)
    (kwargs : K) : exn + (P * T) :=
  match parsers with
  | None =>
      inl (AttributeError "'NoneType' object has no attribute 'add_parser'")
  | Some tree => add_parser tree name kwargs
  end.

(** [self.callbacks[name] = callback] *)
Definition store (self : t) (name : string) (callback : pyobj) : t :=
  {| command := command self;
     callbacks := <[name := callback]> (callbacks self);
     parsers := parsers self |}.

Definition with_parsers (self : t) (tree : T) : t :=
  {| command := command self;
     callbacks := callbacks self;
     parsers := Some tree |}.

(** [Register(self, name, callback, **kwargs)].  The second component
    is the registry as the call leaves it, also when it raises. *)
Definition Register (self : t) (name : string) (callback : pyobj)
    (kwargs : K) : outcome P * t :=
  if negb (callable callback) then
    (Raise (ExecutorError "Callback is not callable"), self)
  else if String.eqb name (command self) then
    (Raise (ExecutorError
              ("Cannot register a secondary '" +:+ name +:+ "' command")),
     self)
  else if already_registered self name then
    (Raise (ExecutorError ("Command '" +:+ name +:+ "' already registered")),
     self)
  else
    let self1 := store self name callback in
    match parsers_add_parser (parsers self1) name kwargs with
    | inl e => (Raise e, self1)
    | inr (parser, tree1) =>
        let self2 := with_parsers self1 tree1 in
        match add_argument tree1 parser "--config" with
        | inl e => (Raise e, self2)
        | inr tree2 => (Return parser, with_parsers self2 tree2)
        end
    end.

End Registry.
Arguments t : clear implicits.
End Callbacks.

(** An instance shaped after [argparse]: the collection is the
    name-to-parser map of the sub-parsers action, a parser is known by
    the name it was added under, and the keyword options are those of
    [ArgumentParser].  Of these, [add_help] and [prefix_chars] decide
    which arguments the new parser holds; the others are kept as they
    are given. *)
Module Argparse.

Record parser := {
  options : list (string * pyobj);
  prefix_chars : string;
  option_strings : list string;
  positionals : list string
}.

Definition name_parser_map := list (string * parser).

Definition keywords : list string :=
  [ "prog"; "usage"; "description"; "epilog"; "parents"; "formatter_class";
    "prefix_chars"; "fromfile_prefix_chars"; "argument_default";
    "conflict_handler"; "add_help"; "allow_abbrev"; "exit_on_error";
    "help"; "aliases" ].

Definition has_name (name : string) (m : name_parser_map) : bool :=
  existsb (λ e : string * parser, String.eqb name e.1) m.

Definition accepted (kwargs : list (string * pyobj)) : bool :=
  forallb (λ kv : string * pyobj,
             existsb (String.eqb kv.1) keywords) kwargs.

(** [kwargs.get(key)] *)
Definition keyword (key : string) (kwargs : list (string * pyobj))
    : option pyobj :=
  snd <$> List.find (λ kv : string * pyobj, String.eqb key kv.1) kwargs.

(** [bool(o)] *)
Definition truth (o : pyobj) : bool :=
  match o with
  | PyNone => false
  | PyBool flag => flag
  | PyInt z => negb (z =? 0)
  | PyStr s => negb (String.eqb s "")
  | PyFunction _ => true
  end.

(** [c in s], for a character and a string *)
Fixpoint char_in (c : Ascii.ascii) (s : string) : bool :=
  match s with
  | EmptyString => false
  | String c' s' => Ascii.eqb c c' || char_in c s'
  end.

Definition hyphen : Ascii.ascii := Ascii.ascii_of_nat 45.

(** ['-' if '-' in prefix_chars else prefix_chars[0]], in
    [ArgumentParser.__init__] *)
Definition default_prefix (kwargs : list (string * pyobj))
    : exn + (string * string) :=
  match keyword "prefix_chars" kwargs with
  | None => inr ("-", "-")
  | Some (PyStr chars) =>
      if char_in hyphen chars then inr (chars, "-")
      else
        match chars with
        | EmptyString => inl (IndexError "string index out of range")
        | String c _ => inr (chars, String c EmptyString)
        end
  | Some o =>
      inl (TypeError ("argument of type '" +:+ type_name o
                      +:+ "' is not iterable"))
  end.

(** [if self.add_help: self.add_argument(default_prefix+'h',
    default_prefix*2+'help', ...)] *)
Definition help_options (kwargs : list (string * pyobj)) (prefix : string)
    : list string :=
  let add_help :=
    match keyword "add_help" kwargs with
    | None => true
    | Some o => truth o
    end in
  if add_help then [prefix +:+ "h"; prefix +:+ prefix +:+ "help"] else [].

Definition action_add_parser (m : name_parser_map) (name : string)
    (kwargs : list (string * pyobj)) : exn + (string * name_parser_map) :=
  if has_name name m then
    inl (ArgumentError ("conflicting subparser: " +:+ name))
  else if negb (accepted kwargs) then
    inl (TypeError "__init__() got an unexpected keyword argument")
  else
    match default_prefix kwargs with
    | inl e => inl e
    | inr (chars, prefix) =>
        inr (name, m ++ [(name, {| options := kwargs;
                                    prefix_chars := chars;
                                    option_strings := help_options kwargs prefix;
                                    positionals := [] |})])
    end.

(** [parser.add_argument(flag, ...)] with one name: an option when
    the name begins with a prefix character, which must then not be
    taken; a positional argument otherwise. *)
Definition add_to (q : parser) (flag : string) : exn + parser :=
  match flag with
  | String c _ =>
      if char_in c (prefix_chars q) then
        if existsb (String.eqb flag) (option_strings q) then
          inl (ArgumentError ("conflicting option string: " +:+ flag))
        else
          inr {| options := options q;
                 prefix_chars := prefix_chars q;
                 option_strings := option_strings q ++ [flag];
                 positionals := positionals q |}
      else
        inr {| options := options q;
               prefix_chars := prefix_chars q;
               option_strings := option_strings q;
               positionals := positionals q ++ [flag] |}
  | EmptyString => inl (IndexError "string index out of range")
  end.

Fixpoint parser_add_argument (m : name_parser_map) (p : string) (flag : string)
    : exn + name_parser_map :=
  match m with
  | [] => inl (KeyError p)
  | (n, q) :: m' =>
      if String.eqb n p then
        match add_to q flag with
        | inl e => inl e
        | inr q' => inr ((n, q') :: m')
        end
      else
        match parser_add_argument m' p flag with
        | inl e => inl e
        | inr m'' => inr ((n, q) :: m'')
        end
  end.

#[global] Instance sub_parsers
    : SubParsers name_parser_map string (list (string * pyobj)) :=
  {| add_parser := action_add_parser;
     add_argument := parser_add_argument |}.

End Argparse.

(** ** Function [Command]: run a child process and collect its lines *)

Module Command.

(** Python [bytes]. *)
Definition bytes := list byte.

Definition b (s : string) : bytes := String.list_byte_of_string s.

(** The bytes [bytes.strip()] removes: space, tab, newline, carriage
    return, vertical tab, form feed. *)
Definition is_space (c : byte) : bool :=
  match c with
  | x20 | x09 | x0a | x0d | x0b | x0c => true
  | _ => false
  end.

Fixpoint lstrip (s : bytes) : bytes :=
  match s with
  | [] => []
  | c :: s' => if is_space c then lstrip s' else s
  end.

Definition strip (s : bytes) : bytes := rev (lstrip (rev (lstrip s))).

Definition is_newline (c : byte) : bool :=
  match c with
  | x0a => true
  | _ => false
  end.

(** [readline()] on what is left of a stream that has reached its end:
    the bytes up to and including the first newline (all of them when
    there is none), and the rest. *)
Fixpoint split_line (s : bytes) : bytes * bytes :=
  match s with
  | [] => ([], [])
  | c :: s' =>
      if is_newline c then ([c], s')
      else let (line, rest) := split_line s' in (c :: line, rest)
  end.

(** The lines of a stream, as successive [readline()] calls deliver
    them before the empty one that marks the end; [cur] is the line
    being read, latest byte first. *)
Fixpoint lines_from (cur s : bytes) : list bytes :=
  match s with
  | [] =>
      match cur with
      | [] => []
      | _ => [rev cur]
      end
  | c :: s' =>
      if is_newline c then rev (c :: cur) :: lines_from [] s'
      else lines_from (c :: cur) s'
  end.

Definition lines (s : bytes) : list bytes := lines_from [] s.

(** [if len(line.strip()) > 0: output.append(line.strip())], over a
    sequence of lines. *)
Definition kept (ls : list bytes) : list bytes :=
  List.filter (λ l, 0 <? Z.of_nat (length l)) (map strip ls).

(** *** The operating system, as [Command] meets it *)

Inductive stream := Stdout | Stderr.

(** A child program: what it writes, in order, how many times a
    [poll()] of the parent still finds it running, and the status it
    exits with. *)
Record program := {
  writes : list (stream * bytes);
  polls_while_running : nat;
  exit_status : Z
}.

(** [spawn] is the fork-and-exec of [Popen]: an [errno], or the
    program now running.  [interrupt_at] is the library call, counted
    from 0 among the calls [Command] makes, the closing
    [process.poll()] included, during which the user's interrupt
    arrives (if it does). *)
Record os := {
  spawn : list string → option string → Z + program;
  interrupt_at : option nat
}.

(** *** [subprocess.Popen], as far as [Command] uses it *)

Definition subprocess_PIPE : pyobj := PyInt (-1).
Definition subprocess_STDOUT : pyobj := PyInt (-2).
Definition subprocess_DEVNULL : pyobj := PyInt (-3).

(** [os.devnull]: the path of the null device, a string. *)
Definition os_devnull : pyobj := PyStr "/dev/null".

(** Where [Popen._get_handles] sends the child's error stream. *)
Inductive redirect :=
| Inherit
| Pipe
| ToStdout
| DevNull
| Descriptor (fd : Z).

(** The [stderr] branch of [Popen._get_handles]: [None], the three
    special values, an integer descriptor, and otherwise an object
    asked for its [fileno()]. *)
Definition get_handle (stderr : pyobj) : outcome redirect :=
  match stderr with
  | PyNone => Return Inherit
  | PyInt z =>
      if z =? -1 then Return Pipe
      else if z =? -2 then Return ToStdout
      else if z =? -3 then Return DevNull
      else Return (Descriptor z)
  | PyBool flag => Return (Descriptor (if flag then 1 else 0))
  | PyStr _ => Raise (AttributeError "'str' object has no attribute 'fileno'")
  | PyFunction _ =>
      Raise (AttributeError "'function' object has no attribute 'fileno'")
  end.

(** The bytes that reach the pipe opened by [stdout=PIPE]. *)
Definition reaches_pipe (r : redirect) (w : stream * bytes) : bool :=
  match w.1, r with
  | Stdout, _ => true
  | Stderr, ToStdout => true
  | Stderr, _ => false
  end.

Definition captured (r : redirect) (p : program) : bytes :=
  concat (map snd (List.filter (reaches_pipe r) (writes p))).

(** A [Popen] object: the unread part of [stdout], and the child. *)
Record popen := {
  stdout : bytes;
  running : nat;
  returncode : Z
}.

(** The locals [process] and [output], and the count of library calls
    made so far. *)
Record world := {
  ticks : nat;
  process : option popen;
  output : list bytes
}.

Definition initial : world :=
  {| ticks := 0; process := None; output := [] |}.

Definition set_process (p : popen) (w : world) : world :=
  {| ticks := ticks w; process := Some p; output := output w |}.

Definition append_output (line : bytes) (w : world) : world :=
  {| ticks := ticks w; process := process w; output := output w ++ [line] |}.

Definition tick (w : world) : world :=
  {| ticks := S (ticks w); process := process w; output := output w |}.

(** Entering a library call: the interrupt, if due now, is raised. *)
Definition checkpoint (o : os) : M world unit :=
  w <- get ;;
  modify tick ;;
  if decide (interrupt_at o = Some (ticks w))
  then raise KeyboardInterrupt
  else ret tt.

(** [process = subprocess.Popen(command, cwd=cwd, stdout=PIPE,
    stderr=...)]; the assignment happens only when [Popen] returns. *)
Definition Popen (o : os) (command : list string) (cwd : option string)
    (stderr : pyobj) : M world unit :=
  checkpoint o ;;
  r <- lift (get_handle stderr) ;;
  match spawn o command cwd with
  | inl errno => raise (OSError errno)
  | inr prog =>
      modify (set_process {| stdout := captured r prog;
                             running := polls_while_running prog;
                             returncode := exit_status prog |})
  end.

Definition no_attribute (name : string) : exn :=
  AttributeError ("'NoneType' object has no attribute '" +:+ name +:+ "'").

(** [process.poll()] *)
Definition poll : M world (option Z) :=
  w <- get ;;
  match process w with
  | None => raise (no_attribute "poll")
  | Some p =>
      match running p with
      | O => ret (Some (returncode p))
      | S n =>
          modify (set_process {| stdout := stdout p;
                                 running := n;
                                 returncode := returncode p |}) ;;
          ret None
      end
  end.

(** [process.stdout.readline()] *)
Definition readline : M world bytes :=
  w <- get ;;
  match process w with
  | None => raise (no_attribute "stdout")
  | Some p =>
      let (line, rest) := split_line (stdout p) in
      modify (set_process {| stdout := rest;
                             running := running p;
                             returncode := returncode p |}) ;;
      ret line
  end.

(** [for line in iter(process.stdout.readline, b''): ...] *)
Fixpoint drain (o : os) (fuel : nat) : M world unit :=
  match fuel with
  | O => out_of_fuel
  | S fuel' =>
      checkpoint o ;;
      line <- readline ;;
      match line with
      | [] => ret tt
      | _ =>
          (if (0 <? Z.of_nat (length (strip line)))
           then modify (append_output (strip line))
           else ret tt) ;;
          drain o fuel'
      end
  end.

(** Reading to the end of the pipe takes one [readline()] per line
    and one more for the end. *)
Definition drain_budget (w : world) : nat :=
  match process w with
  | None => 1
  | Some p => S (length (stdout p))
  end.

(** [while True: if process.poll() is not None: break; for ...] *)
Fixpoint wait_loop (o : os) (fuel : nat) : M world unit :=
  match fuel with
  | O => out_of_fuel
  | S fuel' =>
      checkpoint o ;;
      code <- poll ;;
      match code with
      | Some _ => ret tt
      | None =>
          w <- get ;;
          drain o (drain_budget w) ;;
          wait_loop o fuel'
      end
  end.

Definition wait_budget (w : world) : nat :=
  match process w with
  | None => 1
  | Some p => S (running p)
  end.

(** The body of [Command(command, stderr=True, cwd=None)].  The
    closing [process.poll()] stands after the [try] statement, outside
    its clauses: an interrupt that arrives there is not caught. *)
Definition Command_body (o : os) (command : list string) (stderr : bool)
    (cwd : option string) : M world (option Z * list bytes) :=
  try_except
    (Popen o command cwd (if stderr then subprocess_STDOUT else os_devnull) ;;
     w <- get ;;
     wait_loop o (wait_budget w))
    (λ e, match e with
          | KeyboardInterrupt => Some (ret tt)
          | OSError _ => Some (raise e)
          | _ => None
          end) ;;
  checkpoint o ;;
  code <- poll ;;
  w <- get ;;
  ret (code, output w).

Definition Command (o : os) (command : list string) (stderr : bool)
    (cwd : option string) : option (outcome (option Z * list bytes) * world) :=
  Command_body o command stderr cwd initial.

(** [echo hello]: one line on standard output, exit status 0. *)
Definition echo_hello (polls : nat) : program :=
  {| writes := [(Stdout, b "hello" ++ [x0a])];
     polls_while_running := polls;
     exit_status := 0 |}.

(** A machine on which every command behaves as [prog]. *)
Definition machine (prog : program) (interrupt : option nat) : os :=
  {| spawn := λ _ _, inr prog; interrupt_at := interrupt |}.


End Command.

(** ** Function [Select]: wait for readiness, up to a deadline *)

Module Select.

(** [selectors.EVENT_READ], [selectors.EVENT_WRITE] *)
Inductive event := EVENT_READ | EVENT_WRITE.

#[export] Instance event_eq_dec : EqDecision event.
Proof. solve_decision. Defined.

(** What [selector.select()] returns: the ready descriptors, each with
    the event it is ready for. *)
Definition ready_list := list (Z * event).

(** The [rds] and [wrts] arguments: a list, or one descriptor alone. *)
Inductive channels :=
| One (fd : Z)
| Several (fds : list Z).

(** [if not isinstance(x, list): x = [x]] *)
Definition as_list (c : channels) : list Z :=
  match c with
  | One fd => [fd]
  | Several fds => fds
  end.

(** A selector: the registrations it holds, and whether it has been
    closed. *)
Record selector := {
  fd_to_key : gmap Z event;
  closed : bool
}.

(** What reaches the logger. *)
Inductive record :=
| error_OSError (errno : Z) (message : string)
| error_close (e : exn)
| debug_interval (microseconds : Z).

(** Times are in microseconds, the resolution of [datetime] and
    [timedelta], counted from [datetime.min].  [clock] is what the
    wall clock would show had nobody set it back since the call
    began.  [sel] is the selector of the call; until
    [selectors.DefaultSelector()] has returned one there is nothing
    to close, which [closed] shows as [true]. *)
Record world := {
  ticks : nat;
  clock : Z;
  sel : selector;
  polls : nat;
  log : list record
}.

(** The operating system, as [Select] meets it.  Library calls are
    numbered from 0 in the order they are made.  [latency k] is the
    time by which the clock advances during call [k]; [set_back]
    lists, from call 0 on, by how much the wall clock is set back
    during each call ([datetime.now()] is local time, which an
    administrator, a time server or the end of summer time can turn
    back), and no call after the end of the list sets it back;
    [interrupt_at] is the call during which the user's interrupt
    arrives, one of those made inside the [try] block (no interrupt
    is delivered elsewhere); [create_error]
    the [errno] with which the kernel refuses to make a selector;
    [refused fd] the [errno] with which it refuses to watch [fd];
    [poll_error n] the [errno] with which the [n]-th wait fails (a
    wait that a signal interrupts is resumed: [EINTR] is not among
    them);
    [kernel_ready n] what the [n]-th wait reports; [close_error] the
    [errno] with which closing the selector fails. *)
Record os := {
  boot : Z;
  latency : nat → N;
  set_back : list N;
  interrupt_at : option nat;
  create_error : option Z;
  refused : Z → option Z;
  poll_error : nat → option Z;
  kernel_ready : nat → ready_list;
  close_error : option Z;
  strerror : Z → string
}.

(** The slice [selector.select(timeout=0.1)] waits when nothing is
    ready. *)
Definition slice : Z := 100000.

(** By how much the wall clock has been set back in the first [n]
    calls, and in all. *)
Definition lost (o : os) (n : nat) : Z :=
  Z.of_N (foldr N.add 0%N (take n (set_back o))).

Definition lost_in_all (o : os) : Z := lost o (length (set_back o)).

Definition set_sel (s : selector) (w : world) : world :=
  {| ticks := ticks w; clock := clock w; sel := s;
     polls := polls w; log := log w |}.

Definition advance (d : Z) (w : world) : world :=
  {| ticks := ticks w; clock := clock w + d; sel := sel w;
     polls := polls w; log := log w |}.

Definition count_poll (w : world) : world :=
  {| ticks := ticks w; clock := clock w; sel := sel w;
     polls := S (polls w); log := log w |}.

Definition write_log (r : record) (w : world) : world :=
  {| ticks := ticks w; clock := clock w; sel := sel w;
     polls := polls w; log := log w ++ [r] |}.

(** The world [Select] is called in: no selector yet. *)
Definition initial (o : os) : world :=
  {| ticks := 0; clock := boot o;
     sel := {| fd_to_key := ∅; closed := true |};
     polls := 0; log := [] |}.

(** A library call takes its time. *)
Definition pass (o : os) (w : world) : world :=
  {| ticks := S (ticks w);
     clock := clock w + Z.of_N (latency o (ticks w));
     sel := sel w; polls := polls w; log := log w |}.

Definition elapse (o : os) : M world unit := modify (pass o).

(** A library call inside the [try] block: the interrupt, if due
    during it, is raised. *)
Definition checkpoint (o : os) : M world unit :=
  w <- get ;;
  elapse o ;;
  if decide (interrupt_at o = Some (ticks w))
  then raise KeyboardInterrupt
  else ret tt.

(** What the wall clock shows. *)
Definition reading (o : os) : M world Z :=
  w <- get ;;
  ret (clock w - lost o (ticks w)).

(** [datetime.now()] *)
Definition now (o : os) : M world Z :=
  elapse o ;;
  reading o.

(** The range of [timedelta]: from -999999999 days to 999999999 days,
    23:59:59.999999; and [datetime.max], 9999-12-31 23:59:59.999999. *)
Definition timedelta_min : Z := -86399999913600000000.
Definition timedelta_max : Z := 86399999999999999999.
Definition datetime_max : Z := 315537897599999999.

(** [timedelta(seconds=timeout)], the timeout being a finite number,
    here in microseconds. *)
Definition timedelta (microseconds : Z) : outcome Z :=
  if (microseconds <? timedelta_min) || (timedelta_max <? microseconds)
  then Raise (OverflowError "must have magnitude <= 999999999")
  else Return microseconds.

(** [t + d], for a [datetime] and a [timedelta] *)
Definition datetime_add (t d : Z) : outcome Z :=
  if (t + d <? 0) || (datetime_max <? t + d)
  then Raise (OverflowError "date value out of range")
  else Return (t + d).

(** [selectors.DefaultSelector()] *)
Definition DefaultSelector (o : os) : M world unit :=
  elapse o ;;
  match create_error o with
  | Some errno => raise (OSError errno)
  | None => modify (set_sel {| fd_to_key := ∅; closed := false |})
  end.

(** [selector.register(fd, ev)], after [_BaseSelectorImpl.register]
    and the poll-like selectors: an invalid descriptor is a
    [ValueError], a descriptor already registered a [KeyError]; one
    that does not fit a C [int] is refused by the kernel object's own
    [register] with an [OverflowError], and the kernel may refuse
    with an [OSError]; in both cases the entry is taken out again. *)
Definition register (o : os) (fd : Z) (ev : event) : M world unit :=
  checkpoint o ;;
  w <- get ;;
  if fd <? 0 then
    raise (ValueError "Invalid file descriptor")
  else if decide (is_Some (fd_to_key (sel w) !! fd)) then
    raise (KeyError "already registered")
  else if 2147483647 <? fd then
    raise (OverflowError "Python int too large to convert to C int")
  else
    match refused o fd with
    | Some errno => raise (OSError errno)
    | None =>
        modify (set_sel {| fd_to_key := <[fd := ev]> (fd_to_key (sel w));
                           closed := closed (sel w) |})
    end.

(** The part of the kernel's report that concerns registrations. *)
Definition watched (s : selector) (r : Z * event) : bool :=
  bool_decide (fd_to_key s !! r.1 = Some r.2).

(** [selector.select(timeout=0.1)]: returns as soon as something is
    ready, and otherwise when the slice has passed. *)
Definition select (o : os) : M world ready_list :=
  checkpoint o ;;
  w <- get ;;
  modify count_poll ;;
  match poll_error o (polls w) with
  | Some errno => raise (OSError errno)
  | None =>
      let res := List.filter (watched (sel w)) (kernel_ready o (polls w)) in
      match res with
      | [] => modify (advance slice) ;; ret res
      | _ => ret res
      end
  end.

(** [selector.close()]: the kernel object is released even when the
    call reports an error; the registrations are dropped when it
    does not. *)
Definition close (o : os) : M world unit :=
  w <- get ;;
  match close_error o with
  | Some errno =>
      modify (set_sel {| fd_to_key := fd_to_key (sel w); closed := true |}) ;;
      raise (OSError errno)
  | None =>
      modify (set_sel {| fd_to_key := ∅; closed := true |})
  end.

(** Membership in [Exception]: every exception here but
    [KeyboardInterrupt]. *)
Definition is_Exception (e : exn) : bool :=
  match e with
  | KeyboardInterrupt => false
  | _ => true
  end.

(** The exceptions the [try] statement of [Select] has a clause for;
    both clauses [return None]. *)
Definition caught (e : exn) : Prop :=
  e = KeyboardInterrupt ∨ ∃ errno, e = OSError errno.

(** [if logger: logger.error(...)] and [logger.debug(...)] *)
Definition tell (logger : bool) (r : record) : M world unit :=
  if logger then modify (write_log r) else ret tt.

(** [while datetime.now() < end: res = selector.select(timeout=0.1);
    if res: break] *)
Fixpoint poll_loop (o : os) (fuel : nat) (end_ : Z) (res : option ready_list)
    : M world (option ready_list) :=
  match fuel with
  | O => out_of_fuel
  | S fuel' =>
      checkpoint o ;;
      t <- reading o ;;
      if t <? end_ then
        res <- select o ;;
        match res with
        | [] => poll_loop o fuel' end_ (Some res)
        | _ => ret (Some res)
        end
      else ret res
  end.

(** Each fruitless turn of the loop takes a slice at least, and the
    deadline is no further away than the timeout and what the clock
    is set back by. *)
Definition poll_budget (o : os) (timeout : Z) : nat :=
  S (S (Z.to_nat ((timeout + lost_in_all o) / slice))).

(** The block of the [try] statement: the registrations and the
    loop. *)
Definition try_block (o : os) (rds wrts : list Z) (timeout end_ : Z)
    : M world (flow (option ready_list) (option ready_list)) :=
  let res : option ready_list := None in
  for_each rds (λ rd, register o rd EVENT_READ) ;;
  for_each wrts (λ wr, register o wr EVENT_WRITE) ;;
  res <- poll_loop o (poll_budget o timeout) end_ res ;;
  ret (Fallthrough res).

(** The [try] statement with its clauses.  Control falls through it
    with [res], or a clause returns [None]. *)
Definition try_statement (o : os) (rds wrts : list Z) (timeout end_ : Z)
    (logger : bool)
    : M world (flow (option ready_list) (option ready_list)) :=
  try_finally
    (try_except
       (try_block o rds wrts timeout end_)
       (λ e, match e with
             | OSError errno =>
                 Some (tell logger (error_OSError errno (strerror o errno)) ;;
                       ret (Returned None))
             | KeyboardInterrupt => Some (ret (Returned None))
             | _ => None
             end))
    (try_except
       (close o)
       (λ e, if is_Exception e
             then Some (tell logger (error_close e))
             else None)).

(** The body of [Select(rds, wrts, timeout, logger=None)].  The value
    is [None] for Python's [None], and [Some l] for the list [l].
    The deadline is computed and the selector made before the [try]
    statement, outside its clauses. *)
Definition Select_body (o : os) (rds wrts : channels) (timeout : Z)
    (logger : bool) : M world (option ready_list) :=
  let rds := as_list rds in
  let wrts := as_list wrts in
  start <- now o ;;
  d <- lift (timedelta timeout) ;;
  end_ <- lift (datetime_add start d) ;;
  DefaultSelector o ;;
  r <- try_statement o rds wrts timeout end_ logger ;;
  match r with
  | Returned v => ret v
  | Fallthrough res =>
      (if logger
       then t <- now o ;; modify (write_log (debug_interval (t - start)))
       else ret tt) ;;
      ret res
  end.

Definition Select (o : os) (rds wrts : channels) (timeout : Z)
    (logger : bool) : option (outcome (option ready_list) * world) :=
  Select_body o rds wrts timeout logger (initial o).

(** A machine on which nothing ever happens: it is 2026-01-01 0:00,
    no call takes time, the clock is left alone, no descriptor
    becomes ready, no call fails, nobody interrupts. *)
Definition idle : os :=
  {| boot := 63902822400000000;
     latency := λ _, 0%N;
     set_back := [];
     interrupt_at := None;
     create_error := None;
     refused := λ _, None;
     poll_error := λ _, None;
     kernel_ready := λ _, [];
     close_error := None;
     strerror := λ _, "" |}.

End Select.

(** ** Descriptors, identities and privileges

    The remaining functions of the module are short and call the
    operating system directly; they are written in plain
    state-passing style. *)

Inductive result (A : Type) :=
| Ok (a : A)
| Err (e : exn).
Arguments Ok {A} a.
Arguments Err {A} e.

(** [os.name] *)
Inductive platform := posix | nt | java.

(** [isinstance(o, int)]; [bool] is a subclass of [int]. *)
Definition is_int (o : pyobj) : bool :=
  match o with
  | PyInt _ | PyBool _ => true
  | _ => false
  end.

(** An integer argument converted to a C [int]. *)
Definition as_c_int (o : pyobj) : result Z :=
  match o with
  | PyInt z =>
      if (z <? -2147483648) || (2147483647 <? z)
      then Err (OverflowError "Python int too large to convert to C int")
      else Ok z
  | PyBool flag => Ok (if flag then 1 else 0)
  | _ =>
      Err (TypeError ("'" +:+ type_name o
                               +:+ "' object cannot be interpreted as an integer"))
  end.

(** *** [CloseDescriptor], [SetNonBlocking], [RedirectStream] *)

Module Descriptors.

(** An open file description of the kernel: the file it is open on
    and its flag word (access mode and status flags). *)
Record description := {
  path : string;
  flags : Z
}.

Inductive kind := File | Socket.

(** A Python object with [close()] and [fileno()]: the descriptor it
    wraps, whether [close()] has been called on it, and, for a socket
    on a platform without descriptor flags, its blocking mode. *)
Record fileobj := {
  sort : kind;
  fileno : Z;
  closed : bool;
  blocking : bool
}.

(** The process: its descriptor table, the open file descriptions the
    table points to (descriptors made by [dup2] share one), and the
    file objects on the heap.  [open_error] is the [errno] with which
    [os.open] fails, if it does. *)
Record world := {
  fds : gmap Z nat;
  files : gmap nat description;
  objects : gmap nat fileobj;
  open_error : option Z
}.

(** What the functions are handed: a plain value (an integer
    descriptor, or anything else), or a reference to a file object. *)
Inductive arg :=
| Value (o : pyobj)
| Object (ref : nat).

(** [hasattr(x, 'close')] *)
Definition has_close (x : arg) : bool :=
  match x with
  | Value _ => false
  | Object _ => true
  end.

Definition with_fds (t : gmap Z nat) (w : world) : world :=
  {| fds := t; files := files w; objects := objects w;
     open_error := open_error w |}.

Definition with_files (f : gmap nat description) (w : world) : world :=
  {| fds := fds w; files := f; objects := objects w;
     open_error := open_error w |}.

Definition with_objects (h : gmap nat fileobj) (w : world) : world :=
  {| fds := fds w; files := files w; objects := h;
     open_error := open_error w |}.

Definition EBADF : Z := 9.
Definition O_RDWR : Z := 2.
(** Linux values. *)
Definition O_NONBLOCK : Z := 2048.
Definition O_APPEND : Z := 1024.
Definition O_ASYNC : Z := 8192.
Definition O_DIRECT : Z := 16384.
Definition O_NOATIME : Z := 262144.

(** The flags [F_SETFL] can change. *)
Definition settable : Z :=
  Z.lor O_APPEND (Z.lor O_ASYNC (Z.lor O_DIRECT (Z.lor O_NOATIME O_NONBLOCK))).

(** [close(2)] *)
Definition sys_close (fd : Z) (w : world) : result unit * world :=
  match fds w !! fd with
  | Some _ => (Ok tt, with_fds (delete fd (fds w)) w)
  | None => (Err (OSError EBADF), w)
  end.

(** [os.close(x)] *)
Definition os_close (x : pyobj) (w : world) : result unit * world :=
  match as_c_int x with
  | Ok fd => sys_close fd w
  | Err e => (Err e, w)
  end.

(** [obj.close()] on a file or socket object: the object counts as
    closed from then on, also when the kernel reports an error; a
    second [close()] does nothing.  A reference the heap does not hold
    stands for an object closed long ago. *)
Definition object_close (ref : nat) (w : world) : result unit * world :=
  match objects w !! ref with
  | None => (Ok tt, w)
  | Some ob =>
      if closed ob then (Ok tt, w)
      else
        sys_close (fileno ob)
          (with_objects (<[ref := {| sort := sort ob; fileno := fileno ob;
                                    closed := true;
                                    blocking := blocking ob |}]> (objects w))
             w)
  end.

(** [except (IOError, OSError): pass] *)
Definition is_OSError (e : exn) : bool :=
  match e with
  | OSError _ => true
  | _ => false
  end.

(** [CloseDescriptor(fd)] *)
Definition CloseDescriptor (fd : arg) (w : world) : result unit * world :=
  let (r, w') :=
    match fd with
    | Object ref => object_close ref w
    | Value x => os_close x w
    end in
  match r with
  | Err e => if is_OSError e then (Ok tt, w') else (Err e, w')
  | Ok _ => (Ok tt, w')
  end.

(** [obj.fileno()] *)
Definition object_fileno (x : arg) (w : world) : result Z :=
  match x with
  | Value o =>
      Err (AttributeError ("'" +:+ type_name o
                                    +:+ "' object has no attribute 'fileno'"))
  | Object ref =>
      match objects w !! ref with
      | Some ob =>
          if closed ob then
            match sort ob with
            | File => Err (ValueError "I/O operation on closed file")
            | Socket => Ok (-1)
            end
          else Ok (fileno ob)
      | None => Err (ValueError "I/O operation on closed file")
      end
  end.

(** The descriptor argument of [fcntl.fcntl]: an integer, or an object
    asked for its [fileno()]; never negative. *)
Definition as_descriptor (x : arg) (w : world) : result Z :=
  let checked (fd : Z) : result Z :=
    if fd <? 0
    then Err (ValueError "file descriptor cannot be a negative integer")
    else Ok fd in
  match x with
  | Value o =>
      if is_int o then
        match as_c_int o with
        | Ok fd => checked fd
        | Err e => Err e
        end
      else
        Err (TypeError "argument must be an int, or have a fileno() method.")
  | Object _ =>
      match object_fileno x w with
      | Ok fd => checked fd
      | Err e => Err e
      end
  end.

(** The description a descriptor points to. *)
Definition described (fd : Z) (w : world) : option (nat * description) :=
  match fds w !! fd with
  | Some d =>
      match files w !! d with
      | Some desc => Some (d, desc)
      | None => None
      end
  | None => None
  end.

(** [fcntl.fcntl(x, F_GETFL)] *)
Definition fcntl_getfl (x : arg) (w : world) : result Z :=
  match as_descriptor x w with
  | Err e => Err e
  | Ok fd =>
      match described fd w with
      | Some (_, desc) => Ok (flags desc)
      | None => Err (OSError EBADF)
      end
  end.

(** [fcntl.fcntl(x, F_SETFL, new)]: the settable flags are taken from
    [new], the others stay. *)
Definition fcntl_setfl (x : arg) (new : Z) (w : world) : result unit * world :=
  match as_descriptor x w with
  | Err e => (Err e, w)
  | Ok fd =>
      match described fd w with
      | Some (d, desc) =>
          (Ok tt,
           with_files
             (<[d := {| path := path desc;
                        flags := Z.lor (Z.land (flags desc) (Z.lnot settable))
                                       (Z.land new settable) |}]> (files w))
             w)
      | None => (Err (OSError EBADF), w)
      end
  end.

(** [obj.setblocking(False)] *)
Definition object_setblocking_false (x : arg) (w : world)
    : result unit * world :=
  let missing (name : string) :=
    Err (AttributeError ("'" +:+ name
                                  +:+ "' object has no attribute 'setblocking'")) in
  match x with
  | Value o => (missing (type_name o), w)
  | Object ref =>
      match objects w !! ref with
      | Some ob =>
          match sort ob with
          | File => (missing "_io.FileIO", w)
          | Socket =>
              if closed ob then (Err (OSError 10038), w)
              else
                (Ok tt,
                 with_objects
                   (<[ref := {| sort := Socket; fileno := fileno ob;
                                closed := false; blocking := false |}]>
                      (objects w))
                   w)
          end
      | None => (missing "_io.FileIO", w)
      end
  end.

(** [SetNonBlocking(fd)] *)
Definition SetNonBlocking (name : platform) (fd : arg) (w : world)
    : result unit * world :=
  match name with
  | posix =>
      match fcntl_getfl fd w with
      | Err e => (Err e, w)
      | Ok fl => fcntl_setfl fd (Z.lor fl O_NONBLOCK) w
      end
  | nt => object_setblocking_false fd w
  | java => (Ok tt, w)
  end.

(** The lowest descriptor not in use. *)
Fixpoint first_free (t : gmap Z nat) (n : nat) (fd : Z) : Z :=
  match n with
  | O => fd
  | S n' =>
      match t !! fd with
      | None => fd
      | Some _ => first_free t n' (fd + 1)
      end
  end.

Definition lowest_free (t : gmap Z nat) : Z := first_free t (size t) 0.

(** [os.open(path, flags)]: a new description, under the lowest free
    descriptor. *)
Definition os_open (file : string) (mode : Z) (w : world)
    : result Z * world :=
  match open_error w with
  | Some errno => (Err (OSError errno), w)
  | None =>
      let d := fresh (dom (files w)) in
      let fd := lowest_free (fds w) in
      (Ok fd,
       with_fds (<[fd := d]> (fds w))
         (with_files (<[d := {| path := file; flags := mode |}]> (files w)) w))
  end.

(** [os.dup2(old, new)] *)
Definition os_dup2 (old new : Z) (w : world) : result unit * world :=
  if (old <? -2147483648) || (2147483647 <? old)
     || (new <? -2147483648) || (2147483647 <? new)
  then (Err (OverflowError "Python int too large to convert to C int"), w)
  else if (old <? 0) || (new <? 0) then (Err (OSError 0), w)
  else
    match fds w !! old with
    | None => (Err (OSError EBADF), w)
    | Some d => (Ok tt, with_fds (<[new := d]> (fds w)) w)
    end.

(** [os.devnull] *)
Definition devnull : string := "/dev/null".

(** [RedirectStream(source, target=None)] *)
Definition RedirectStream (name : platform) (source : arg)
    (target : option arg) (w : world) : result unit * world :=
  match name with
  | posix =>
      let (t, w1) :=
        match target with
        | None => os_open devnull O_RDWR w
        | Some x => (object_fileno x w, w)
        end in
      match t with
      | Err e => (Err e, w1)
      | Ok tfd =>
          match object_fileno source w1 with
          | Err e => (Err e, w1)
          | Ok sfd => os_dup2 tfd sfd w1
          end
      end
  | _ => (Ok tt, w)
  end.

End Descriptors.

(** *** [GetUserId], [GetGroupId] *)

Module Identity.

(** A [str] is held in [PyStr] as its UTF-8 bytes; a lone surrogate,
    for which UTF-8 proper has no bytes, as the three bytes the
    [surrogatepass] handler gives it ([ED A0 80] to [ED BF BF]). *)
Definition code (c : Ascii.ascii) : N := Ascii.N_of_ascii c.

(** [os.fsencode] where the file system encoding is UTF-8, with its
    error handler [surrogateescape]: the bytes stay as they are,
    except that a surrogate from U+DC80 to U+DCFF ([ED B2 xx],
    [ED B3 xx]) becomes the one byte it stands for; any other
    surrogate cannot be encoded ([UnicodeEncodeError]). *)
Fixpoint utf8_fsencode (s : string) : option string :=
  match s with
  | EmptyString => Some EmptyString
  | String c s1 =>
      match s1 with
      | String c2 (String c3 s3) =>
          if (code c =? 237)%N && (160 <=? code c2)%N then
            if (code c2 =? 178)%N then
              String c3 <$> utf8_fsencode s3
            else if (code c2 =? 179)%N then
              String (Ascii.ascii_of_N (code c3 + 64)) <$> utf8_fsencode s3
            else None
          else String c <$> utf8_fsencode s1
      | _ => String c <$> utf8_fsencode s1
      end
  end.

(** The host: its platform, how it encodes a name for the system
    ([None] when it cannot), and its user and group databases, which
    hold encoded names. *)
Record host := {
  name : platform;
  fsencode : string → option string;
  users : gmap string Z;
  groups : gmap string Z
}.

Fixpoint has_nul (s : string) : bool :=
  match s with
  | EmptyString => false
  | String c s' => Ascii.eqb c Ascii.zero || has_nul s'
  end.

(** [pwd.getpwnam(x).pw_uid] and [grp.getgrnam(x).gr_gid] over a
    database: the argument must be a string; it is encoded, which
    can fail; the encoded name must hold no null byte; and a name the
    database does not know is a [KeyError]. *)
Definition getnam (function : string) (encode : string → option string)
    (db : gmap string Z) (x : pyobj) : result Z :=
  match x with
  | PyStr s =>
      match encode s with
      | None => Err (UnicodeEncodeError "surrogates not allowed")
      | Some encoded =>
          if has_nul encoded then Err (ValueError "embedded null byte")
          else
            match db !! encoded with
            | Some id => Ok id
            | None => Err (KeyError (function +:+ "(): name not found"))
            end
      end
  | _ =>
      Err (TypeError (function +:+ "() argument must be str, not "
                      +:+ type_name x))
  end.

(** [try: return lookup except KeyError: pass] followed by
    [return None]. *)
Definition found_or_None (r : result Z) : result pyobj :=
  match r with
  | Ok id => Ok (PyInt id)
  | Err (KeyError _) => Ok PyNone
  | Err e => Err e
  end.

(** [GetGroupId(group)] *)
Definition GetGroupId (h : host) (group : pyobj) : result pyobj :=
  if is_int group then Ok group
  else
    match name h with
    | posix =>
        found_or_None (getnam "getgrnam" (fsencode h) (groups h) group)
    | _ => Ok PyNone
    end.

(** [GetUserId(user)] *)
Definition GetUserId (h : host) (user : pyobj) : result pyobj :=
  if is_int user then Ok user
  else
    match name h with
    | posix =>
        found_or_None (getnam "getpwnam" (fsencode h) (users h) user)
    | _ => Ok PyNone
    end.

End Identity.

(** *** [SetProcessOwner], [SetProcessUmask] *)

Module Privilege.

(** Real, effective and saved user and group identifiers. *)
Record credentials := {
  ruid : Z; euid : Z; suid : Z;
  rgid : Z; egid : Z; sgid : Z
}.

Inductive record :=
| user_failed (user : pyobj) (errno : Z)
| group_failed (group : pyobj) (errno : Z)
| umask_failed (errno : Z).

Record world := {
  creds : credentials;
  mask : Z;
  log : list record
}.

Definition EPERM : Z := 1.
Definition EINVAL : Z := 22.

(** An argument converted to [uid_t] or [gid_t]: an integer from -1
    to 2^32 - 1. *)
Definition as_id (what : string) (o : pyobj) : result Z :=
  let ranged (z : Z) : result Z :=
    if (z <? -1) || (4294967295 <? z)
    then Err (OverflowError (what +:+ " is out of range"))
    else Ok z in
  match o with
  | PyInt z => ranged z
  | PyBool flag => Ok (if flag then 1 else 0)
  | _ =>
      Err (TypeError (what +:+ " should be integer, not "
                               +:+ type_name o))
  end.

(** [setuid(2)]: -1 (all bits set) is no identifier; a privileged
    process (effective user 0) sets all three identifiers; any other
    may only take its real or saved identifier as effective one. *)
Definition sys_setuid (u : Z) (c : credentials) : Z + credentials :=
  if (u =? -1) || (u =? 4294967295) then inl EINVAL
  else if euid c =? 0 then
    inr {| ruid := u; euid := u; suid := u;
           rgid := rgid c; egid := egid c; sgid := sgid c |}
  else if (u =? ruid c) || (u =? suid c) then
    inr {| ruid := ruid c; euid := u; suid := suid c;
           rgid := rgid c; egid := egid c; sgid := sgid c |}
  else inl EPERM.

(** [setgid(2)], likewise; the privilege is that of the effective
    user. *)
Definition sys_setgid (g : Z) (c : credentials) : Z + credentials :=
  if (g =? -1) || (g =? 4294967295) then inl EINVAL
  else if euid c =? 0 then
    inr {| ruid := ruid c; euid := euid c; suid := suid c;
           rgid := g; egid := g; sgid := g |}
  else if (g =? rgid c) || (g =? sgid c) then
    inr {| ruid := ruid c; euid := euid c; suid := suid c;
           rgid := rgid c; egid := g; sgid := sgid c |}
  else inl EPERM.

Definition with_creds (c : credentials) (w : world) : world :=
  {| creds := c; mask := mask w; log := log w |}.

Definition tell (logger : bool) (r : record) (w : world) : world :=
  if logger
  then {| creds := creds w; mask := mask w; log := log w ++ [r] |}
  else w.

(** [try: if x is not None: os.set*id(x) except OSError as e: if
    logger: logger.error(...)] *)
Definition attempt (what : string)
    (sys : Z → credentials → Z + credentials)
    (failed : pyobj → Z → record)
    (x : pyobj) (logger : bool) (w : world) : result unit * world :=
  match x with
  | PyNone => (Ok tt, w)
  | _ =>
      match as_id what x with
      | Err e => (Err e, w)
      | Ok id =>
          match sys id (creds w) with
          | inr c => (Ok tt, with_creds c w)
          | inl errno => (Ok tt, tell logger (failed x errno) w)
          end
      end
  end.

(** [SetProcessOwner(user, group, logger=None)] *)
Definition SetProcessOwner (name : platform) (user group : pyobj)
    (logger : bool) (w : world) : result unit * world :=
  match name with
  | posix =>
      match attempt "uid" sys_setuid user_failed user logger w with
      | (Err e, w1) => (Err e, w1)
      | (Ok _, w1) => attempt "gid" sys_setgid group_failed group logger w1
      end
  | _ => (Ok tt, w)
  end.

(** [os.umask(m)]: the permission bits of [m] become the mask. *)
Definition os_umask (m : pyobj) (w : world) : result Z * world :=
  match as_c_int m with
  | Err e => (Err e, w)
  | Ok z =>
      (Ok (mask w),
       {| creds := creds w; mask := Z.land z 511; log := log w |})
  end.

(** [SetProcessUmask(umask, logger=None)] *)
Definition SetProcessUmask (name : platform) (umask : pyobj)
    (logger : bool) (w : world) : result unit * world :=
  match name with
  | posix =>
      match os_umask umask w with
      | (Ok _, w1) => (Ok tt, w1)
      | (Err (OSError errno), w1) =>
          (Ok tt, tell logger (umask_failed errno) w1)
      | (Err e, w1) => (Err e, w1)
      end
  | _ => (Ok tt, w)
  end.

End Privilege.

(** ** Specification predicates *)

(** The exceptions of [selector.register] and of the deadline's
    computation: [Select] has no clause for them. *)
Definition unhandled (e : exn) : Prop :=
  ∃ msg, e = KeyError msg ∨ e = ValueError msg ∨ e = OverflowError msg.

(** The exceptions [Select] lets through: the above, and the
    [OSError] of a selector that cannot be made, which is raised
    before the [try] statement. *)
Definition uncaught (o : Select.os) (e : exn) : Prop :=
  unhandled e
  ∨ (∃ errno, e = OSError errno ∧ Select.create_error o = Some errno).

(** What [Select] guarantees on every machine and for every
    argument: the number of polls is bounded by the timeout and by
    what the clock was set back; an empty list is handed back only
    when the timeout has passed since the first reading of the clock;
    and an exception that leaves [Select] is one of the above. *)
Definition guarantees (o : Select.os) (timeout : Z)
    (r : outcome (option Select.ready_list)) (w : Select.world) : Prop :=
  Z.of_nat (Select.polls w) * Select.slice
  < Z.max timeout 0 + Select.lost_in_all o + Select.slice
  ∧ (r = Return (Some []) →
     Select.boot o + Z.of_N (Select.latency o O) + timeout ≤ Select.clock w)
  ∧ (∀ e, r = Raise e → uncaught o e).

(** An argument [os.setuid] and [os.setgid] accept: [None] is never
    passed to them, and an integer must fit the identifier type. *)
Definition acceptable (x : pyobj) : Prop :=
  match x with
  | PyNone | PyBool _ => True
  | PyInt z => -1 ≤ z ≤ 4294967295
  | _ => False
  end.

(** ** Sample worlds *)

(** The description of a terminal, the object that wraps standard
    output, and a process with the three standard descriptors open on
    the terminal. *)
Definition terminal : Descriptors.description :=
  {| Descriptors.path := "/dev/pts/0"; Descriptors.flags := 2 |}.

Definition stdout_object : Descriptors.fileobj :=
  {| Descriptors.sort := Descriptors.File; Descriptors.fileno := 1;
     Descriptors.closed := false; Descriptors.blocking := true |}.

Definition log_object : Descriptors.fileobj :=
  {| Descriptors.sort := Descriptors.File; Descriptors.fileno := 3;
     Descriptors.closed := false; Descriptors.blocking := true |}.

Definition log_file : Descriptors.description :=
  {| Descriptors.path := "/var/log/monitor.log"; Descriptors.flags := 1025 |}.

Definition bare : Descriptors.world :=
  {| Descriptors.fds := {[ 0 := 0%nat; 1 := 0%nat; 2 := 0%nat; 3 := 1%nat ]};
     Descriptors.files := {[ 0%nat := terminal; 1%nat := log_file ]};
     Descriptors.objects := {[ 1%nat := stdout_object; 3%nat := log_object ]};
     Descriptors.open_error := None |}.

(** A POSIX host that knows one user and one group, and a process
    running as root. *)
Definition server : Identity.host :=
  {| Identity.name := posix;
     Identity.fsencode := Identity.utf8_fsencode;
     Identity.users := {[ "monitor" := 1000 ]};
     Identity.groups := {[ "daemon" := 2 ]} |}.

Definition as_root : Privilege.world :=
  {| Privilege.creds :=
       {| Privilege.ruid := 0; Privilege.euid := 0; Privilege.suid := 0;
          Privilege.rgid := 0; Privilege.egid := 0; Privilege.sgid := 0 |};
     Privilege.mask := 18;
     Privilege.log := [] |}.

(** The same process after it has become the user [monitor]. *)
Definition as_monitor : Privilege.world :=
  {| Privilege.creds :=
       {| Privilege.ruid := 1000; Privilege.euid := 1000;
          Privilege.suid := 1000;
          Privilege.rgid := 1000; Privilege.egid := 1000;
          Privilege.sgid := 1000 |};
     Privilege.mask := 18;
     Privilege.log := [] |}.

(** ** Sample inputs *)

(** Two handlers and a registry whose primary command is [run], before
    and after the host has handed over its (empty) parser collection. *)
Definition status_handler : pyobj := PyFunction "status".
Definition other_handler : pyobj := PyFunction "other".
Definition detached : Callbacks.t Argparse.name_parser_map :=
  Callbacks.init "run".
Definition attached : Callbacks.t Argparse.name_parser_map :=
  Callbacks.with_parsers detached [].

(** The one-character name ['\ud800'], a surrogate on its own. *)
Definition lone_surrogate : string :=
  String (Ascii.ascii_of_nat 237)
    (String (Ascii.ascii_of_nat 160)
       (String (Ascii.ascii_of_nat 128) EmptyString)).

(** The one-character name ['\udc80'], which stands for the byte
    [0x80] of a file name that is not UTF-8. *)
Definition escaped_byte : string :=
  String (Ascii.ascii_of_nat 237)
    (String (Ascii.ascii_of_nat 178)
       (String (Ascii.ascii_of_nat 128) EmptyString)).

(** * Properties *)

(** ** Reasoning about computations *)

(** [total P m Q]: started in a world satisfying [P], [m] ends within
    its budget, with an outcome and a world related by [Q]. *)
Definition total {W A} (P : W → Prop) (m : M W A)
    (Q : outcome A → W → Prop) : Prop :=
  ∀ w, P w → ∃ r w', m w = Some (r, w') ∧ Q r w'.

Section Rules.
Context {W : Type}.
Implicit Types P : W → Prop.

Lemma bind_unfold {A B} (m : M W A) (f : A → M W B) w :
  bind m f w = match m w with
               | Some (Return a, w') => f a w'
               | Some (Raise e, w') => Some (Raise e, w')
               | None => None
               end.
Proof. reflexivity. Qed.

Lemma bind_Return {A B} (m : M W A) (f : A → M W B) w a w' :
  m w = Some (Return a, w') → bind m f w = f a w'.
Proof. intros H. unfold bind. by rewrite H. Qed.

Lemma bind_Raise {A B} (m : M W A) (f : A → M W B) w e w' :
  m w = Some (Raise e, w') → bind m f w = Some (Raise e, w').
Proof. intros H. unfold bind. by rewrite H. Qed.

Lemma total_weaken {A} P P' (m : M W A) (Q Q' : outcome A → W → Prop) :
  total P' m Q' →
  (∀ w, P w → P' w) →
  (∀ r w, Q' r w → Q r w) →
  total P m Q.
Proof.
  intros Hm HP HQ w Hw.
  destruct (Hm w (HP w Hw)) as (r & w' & Heq & Hq). eauto.
Qed.

Lemma total_ret {A} P (a : A) (Q : outcome A → W → Prop) :
  (∀ w, P w → Q (Return a) w) → total P (ret a) Q.
Proof. intros H w Hw. exists (Return a), w. auto. Qed.

Lemma total_raise {A} P e (Q : outcome A → W → Prop) :
  (∀ w, P w → Q (Raise e) w) → total P (raise e) Q.
Proof. intros H w Hw. exists (Raise e), w. auto. Qed.

Lemma total_lift {A} P (o : outcome A) (Q : outcome A → W → Prop) :
  (∀ w, P w → Q o w) → total P (lift o) Q.
Proof. intros H w Hw. exists o, w. auto. Qed.

Lemma total_get P (Q : outcome W → W → Prop) :
  (∀ w, P w → Q (Return w) w) → total P get Q.
Proof. intros H w Hw. exists (Return w), w. auto. Qed.

Lemma total_modify P (f : W → W) (Q : outcome unit → W → Prop) :
  (∀ w, P w → Q (Return tt) (f w)) → total P (modify f) Q.
Proof. intros H w Hw. exists (Return tt), (f w). auto. Qed.

Lemma total_bind {A B} P (m : M W A) (f : A → M W B)
    (R : outcome A → W → Prop) (Q : outcome B → W → Prop) :
  total P m R →
  (∀ a, total (R (Return a)) (f a) Q) →
  (∀ e w, R (Raise e) w → Q (Raise e) w) →
  total P (bind m f) Q.
Proof.
  intros Hm Hf He w Hw. unfold bind.
  destruct (Hm w Hw) as ([a|e] & w' & -> & Hr).
  - apply (Hf a w' Hr).
  - exists (Raise e), w'. auto.
Qed.

Lemma total_try_except {A} P (m : M W A) handler
    (R Q : outcome A → W → Prop) :
  total P m R →
  (∀ a w, R (Return a) w → Q (Return a) w) →
  (∀ e, match handler e with
        | Some h => total (R (Raise e)) h Q
        | None => ∀ w, R (Raise e) w → Q (Raise e) w
        end) →
  total P (try_except m handler) Q.
Proof.
  intros Hm Hret Hexc w Hw. unfold try_except.
  destruct (Hm w Hw) as ([a|e] & w' & -> & Hr).
  - exists (Return a), w'. auto.
  - specialize (Hexc e). destruct (handler e) as [h|].
    + apply (Hexc w' Hr).
    + exists (Raise e), w'. auto.
Qed.

Lemma total_try_finally {A} P (m : M W A) (c : M W unit)
    (R Q : outcome A → W → Prop) :
  total P m R →
  (∀ r, total (R r) c (λ rc w, match rc with
                               | Return _ => Q r w
                               | Raise e => Q (Raise e) w
                               end)) →
  total P (try_finally m c) Q.
Proof.
  intros Hm Hc w Hw. unfold try_finally.
  destruct (Hm w Hw) as (r & w' & -> & Hr).
  destruct (Hc r w' Hr) as ([u|e] & w'' & -> & Hq); eauto.
Qed.

(** A loop over a list keeps an invariant, or leaves by an exception. *)
Lemma total_for_each {A} (I : W → Prop) (l : list A) (body : A → M W unit)
    (Q : outcome unit → W → Prop) :
  (∀ x, x ∈ l →
        total I (body x) (λ r w, match r with
                                 | Return _ => I w
                                 | Raise e => Q (Raise e) w
                                 end)) →
  (∀ w, I w → Q (Return tt) w) →
  total I (for_each l body) Q.
Proof.
  intros Hbody Hend. induction l as [|x l IH]; simpl.
  - apply total_ret. auto.
  - eapply total_bind.
    + apply Hbody. left.
    + intros []. simpl. apply IH. intros y Hy. apply Hbody. by right.
    + auto.
Qed.

End Rules.

(** ** The registry *)

Section RegistryFacts.
Context {T P K : Type} `{!SubParsers T P K}.
Implicit Types self : Callbacks.t T.
Import Callbacks.

(** The scan over [items()] is a membership test on the mapping. *)
Lemma already_registered_spec self name :
  already_registered self name = true ↔ is_Some (callbacks self !! name).
Proof.
  unfold already_registered. rewrite existsb_exists. split.
  - intros [[k v] [Hin Heq]]. simpl in Heq.
    apply String.eqb_eq in Heq. subst k.
    apply list_elem_of_In, elem_of_map_to_list in Hin. eauto.
  - intros [v Hv]. exists (name, v). split.
    + apply list_elem_of_In, elem_of_map_to_list, Hv.
    + simpl. apply String.eqb_refl.
Qed.

Lemma already_registered_false self name :
  already_registered self name = false ↔ callbacks self !! name = None.
Proof.
  rewrite <- not_true_iff_false, already_registered_spec.
  rewrite eq_None_not_Some. tauto.
Qed.

(** A reserved or duplicate name is refused with the registry intact. *)
Lemma Register_refuses self name callback (kwargs : K) :
  name = command self ∨ is_Some (callbacks self !! name) →
  ∃ msg, Register self name callback kwargs
         = (Raise (ExecutorError msg), self).
Proof.
  intros Hname. unfold Register.
  destruct (callable callback); simpl; [|eauto].
  destruct (String.eqb name (command self)) eqn:Hcmd; [eauto|].
  destruct Hname as [->|Hdup].
  - rewrite String.eqb_refl in Hcmd. discriminate.
  - apply already_registered_spec in Hdup. rewrite Hdup. eauto.
Qed.

(** A call that returns has stored its name. *)
Lemma Register_returns_stored self name callback (kwargs : K) parser self' :
  Register self name callback kwargs = (Return parser, self') →
  callbacks self' !! name = Some callback.
Proof.
  unfold Register.
  destruct (negb (callable callback)); [discriminate|].
  destruct (String.eqb name (command self)); [discriminate|].
  destruct (already_registered self name); [discriminate|].
  destruct (parsers_add_parser _ _ _) as [e|[p tree1]]; [discriminate|].
  destruct (add_argument _ _ _) as [e|tree2]; [discriminate|].
  intros [= _ <-]. simpl. apply lookup_insert_eq.
Qed.

(** C1.  A [Register] that fails because the name is the reserved
    primary command, or because the name is already in the registry,
    raises [ExecutorError] before anything is mutated: the registry it
    leaves (the mapping and the parser collection) is the registry it
    found.  In particular, when [Register(name, h)] has succeeded, a
    second [Register(name, h2)] fails and leaves the registry as the
    first call left it. *)
Theorem Register_failure_leaves_registry self name callback (kwargs : K) :
  (name = command self ∨ is_Some (callbacks self !! name) →
   ∃ msg, Register self name callback kwargs
          = (Raise (ExecutorError msg), self))
  ∧ (∀ parser self1 callback2 (kwargs2 : K),
       Register self name callback kwargs = (Return parser, self1) →
       ∃ msg, Register self1 name callback2 kwargs2
              = (Raise (ExecutorError msg), self1)).
Proof.
  split.
  - apply Register_refuses.
  - intros parser self1 callback2 kwargs2 Hfirst.
    apply Register_refuses. right.
    rewrite (Register_returns_stored _ _ _ _ _ _ Hfirst). eauto.
Qed.

(** C2.  Whatever the handler (callable or not) and whatever the
    parser options, [Register] under the reserved primary command name
    raises [ExecutorError], and the registry is left as it was. *)
Theorem Register_primary_command_fails self callback (kwargs : K) :
  ∃ msg, Register self (command self) callback kwargs
         = (Raise (ExecutorError msg), self).
Proof.
  unfold Register. destruct (callable callback); simpl.
  - rewrite String.eqb_refl. eauto.
  - eauto.
Qed.

(** C10.  The handler is stored before the sub-parser is created: when
    the three checks pass and creating the sub-parser raises [e], the
    call raises [e] and leaves a registry in which [name] maps to the
    handler while the parser collection is untouched (no sub-parser
    was added to it, no [--config] option attached). *)
Theorem Register_handler_outlives_parser_failure
    self name callback (kwargs : K) e :
  callable callback = true →
  name ≠ command self →
  callbacks self !! name = None →
  parsers_add_parser (parsers self) name kwargs = inl e →
  Register self name callback kwargs
  = (Raise e, {| command := command self;
                 callbacks := <[name := callback]> (callbacks self);
                 parsers := parsers self |})
  ∧ callbacks (Register self name callback kwargs).2 !! name = Some callback
  ∧ parsers (Register self name callback kwargs).2 = parsers self.
Proof.
  intros Hcall Hname Hnew Hfail.
  assert (Register self name callback kwargs
          = (Raise e, store self name callback)) as ->.
  { unfold Register. rewrite Hcall. simpl.
    apply String.eqb_neq in Hname. rewrite Hname.
    apply already_registered_false in Hnew. rewrite Hnew.
    simpl. rewrite Hfail. reflexivity. }
  simpl. split; [reflexivity|]. split; [apply lookup_insert_eq|reflexivity].
Qed.

End RegistryFacts.

(** C1 at a registry that has just accepted [status]. *)
Lemma Register_failure_leaves_registry_witness :
  ∃ msg,
    Callbacks.Register
      (Callbacks.Register attached "status" status_handler []).2
      "status" other_handler []
    = (Raise (ExecutorError msg),
       (Callbacks.Register attached "status" status_handler []).2).
Proof.
  apply (proj2 (Register_failure_leaves_registry
                  attached "status" status_handler [])
               "status" _ other_handler []).
  vm_compute. reflexivity.
Defined.

(** C10 at a registry that was never given a parser collection. *)
Lemma Register_handler_outlives_parser_failure_witness :
  Callbacks.callbacks
    (Callbacks.Register detached "status" status_handler []).2 !! "status"
  = Some status_handler.
Proof.
  apply (Register_handler_outlives_parser_failure
           detached "status" status_handler []
           (AttributeError "'NoneType' object has no attribute 'add_parser'")).
  - reflexivity.
  - discriminate.
  - reflexivity.
  - reflexivity.
Defined.

(** ** The process runner *)

Section CommandFacts.
Import Command.
Implicit Types (o : os) (w : world) (p : popen).

Lemma Command_checkpoint_quiet o w :
  interrupt_at o ≠ Some (ticks w) →
  checkpoint o w = Some (Return tt, tick w).
Proof.
  intros Hq. unfold checkpoint, bind, get, modify. simpl.
  destruct (decide _); [contradiction|reflexivity].
Qed.

Lemma Command_checkpoint_interrupted o w :
  interrupt_at o = Some (ticks w) →
  checkpoint o w = Some (Raise KeyboardInterrupt, tick w).
Proof.
  intros Hq. unfold checkpoint, bind, get, modify. simpl.
  destruct (decide _); [reflexivity|contradiction].
Qed.

Lemma poll_running w p n :
  process w = Some p → running p = S n →
  poll w = Some (Return None,
                 set_process {| stdout := stdout p; running := n;
                                returncode := returncode p |} w).
Proof.
  intros Hp Hn. unfold poll, bind, get, modify, ret. simpl.
  by rewrite Hp, Hn.
Qed.

Lemma poll_exited w p :
  process w = Some p → running p = O →
  poll w = Some (Return (Some (returncode p)), w).
Proof.
  intros Hp Hn. unfold poll, bind, get, modify, ret. simpl.
  by rewrite Hp, Hn.
Qed.

Lemma readline_split w p line rest :
  process w = Some p → split_line (stdout p) = (line, rest) →
  readline w = Some (Return line,
                     set_process {| stdout := rest; running := running p;
                                    returncode := returncode p |} w).
Proof.
  intros Hp Hs. unfold readline, bind, get, modify, ret. simpl.
  by rewrite Hp, Hs.
Qed.

Lemma split_line_length s line rest :
  split_line s = (line, rest) →
  length s = (length line + length rest)%nat ∧ (line = [] → s = []).
Proof.
  revert line rest. induction s as [|c s IH]; intros line rest.
  - simpl. intros [= <- <-]. auto.
  - simpl. destruct (split_line s) as [l r].
    specialize (IH l r eq_refl) as [IH _].
    destruct (is_newline c); intros [= <- <-]; simpl;
      split; (lia || discriminate).
Qed.

(** [lines] is what repeated [readline()] produces. *)
Lemma lines_from_split s :
  ∀ cur line rest, s ≠ [] → split_line s = (line, rest) →
  lines_from cur s = (rev cur ++ line) :: lines rest.
Proof.
  induction s as [|c s IH]; intros cur line rest Hne; [done|].
  simpl. destruct (is_newline c).
  - intros [= <- <-]. reflexivity.
  - destruct (split_line s) as [l r] eqn:Hs. intros [= <- <-].
    destruct s as [|c' s'].
    + simpl in Hs. injection Hs as <- <-. reflexivity.
    + rewrite (IH (c :: cur) l r) by done. simpl.
      by rewrite <- app_assoc.
Qed.

Lemma lines_split s line rest :
  s ≠ [] → split_line s = (line, rest) → lines s = line :: lines rest.
Proof. intros Hne Hs. unfold lines at 1. by rewrite (lines_from_split s [] line rest). Qed.

Lemma drain_S o fuel :
  drain o (S fuel)
  = (checkpoint o ;;
     line <- readline ;;
     match line with
     | [] => ret tt
     | _ =>
         (if (0 <? Z.of_nat (length (strip line)))
          then modify (append_output (strip line))
          else ret tt) ;;
         drain o fuel
     end).
Proof. reflexivity. Qed.

Lemma wait_loop_S o fuel :
  wait_loop o (S fuel)
  = (checkpoint o ;;
     code <- poll ;;
     match code with
     | Some _ => ret tt
     | None =>
         w <- get ;;
         drain o (drain_budget w) ;;
         wait_loop o fuel
     end).
Proof. reflexivity. Qed.

Local Arguments drain : simpl never.
Local Arguments wait_loop : simpl never.

(** Reading the pipe to its end stays within the budget, and leaves
    the child as it was. *)
Lemma drain_total o fuel :
  ∀ w p, process w = Some p → (length (stdout p) < fuel)%nat →
  ∃ r w' p', drain o fuel w = Some (r, w')
             ∧ (r = Return tt ∨ r = Raise KeyboardInterrupt)
             ∧ process w' = Some p'
             ∧ running p' = running p
             ∧ returncode p' = returncode p.
Proof.
  induction fuel as [|fuel IH]; intros w p Hp Hlen; [lia|].
  rewrite drain_S.
  destruct (decide (interrupt_at o = Some (ticks w))) as [Hint|Hquiet].
  { erewrite bind_Raise by (by apply Command_checkpoint_interrupted).
    eexists _, _, p. eauto 10. }
  erewrite bind_Return by (by apply Command_checkpoint_quiet).
  destruct (split_line (stdout p)) as [line rest] eqn:Hsplit.
  erewrite bind_Return by (eapply readline_split; [exact Hp|exact Hsplit]).
  apply split_line_length in Hsplit as [Hsum _].
  destruct line as [|c line].
  { eexists _, _, _. split; [reflexivity|]. simpl. eauto 10. }
  simpl in Hsum.
  destruct (0 <? Z.of_nat (length (strip (c :: line))));
    (erewrite bind_Return by reflexivity);
    match goal with
    | |- context [drain _ _ ?w1] =>
        edestruct (IH w1) as (r & w' & p' & H1 & H2 & H3 & H4 & H5);
        [reflexivity|simpl; lia|]
    end;
    eexists _, _, _; eauto 10.
Qed.

(** The wait loop stays within its budget too; it ends normally once
    the child has exited, or by the interrupt. *)
Lemma wait_loop_total o fuel :
  ∀ w p, process w = Some p → (running p < fuel)%nat →
  ∃ r w' p', wait_loop o fuel w = Some (r, w')
             ∧ (r = Return tt ∧ running p' = O ∨ r = Raise KeyboardInterrupt)
             ∧ process w' = Some p'
             ∧ returncode p' = returncode p.
Proof.
  induction fuel as [|fuel IH]; intros w p Hp Hrun; [lia|].
  rewrite wait_loop_S.
  destruct (decide (interrupt_at o = Some (ticks w))) as [Hint|Hquiet].
  { erewrite bind_Raise by (by apply Command_checkpoint_interrupted).
    eexists _, _, p. eauto 10. }
  erewrite bind_Return by (by apply Command_checkpoint_quiet).
  destruct (running p) as [|n] eqn:Hn.
  { erewrite bind_Return by (by eapply poll_exited).
    eexists _, _, p. split; [reflexivity|]. eauto 10. }
  erewrite bind_Return by (by eapply poll_running).
  cbv beta iota.
  erewrite bind_Return by reflexivity.
  match goal with
  | |- context [drain _ (drain_budget ?w1)] =>
      edestruct (drain_total o (drain_budget w1) w1)
        as (r & w2 & p2 & Hdrain & Hr & Hp2 & Hrun2 & Hcode2);
      [reflexivity|unfold drain_budget; simpl; lia|]
  end.
  simpl in Hrun2, Hcode2.
  destruct Hr as [-> | ->].
  - erewrite bind_Return by exact Hdrain.
    destruct (IH w2 p2 Hp2) as (r & w3 & p3 & H1 & H2 & H3 & H4); [lia|].
    eexists _, _, _. rewrite H4, Hcode2. eauto.
  - erewrite bind_Raise by exact Hdrain.
    eexists _, _, _. eauto 10.
Qed.

(** What [Popen] leaves: a child when it returns, nothing when it
    raises. *)
Lemma Popen_initial o command cwd stderr :
  (∃ e, Popen o command cwd stderr initial = Some (Raise e, tick initial))
  ∨ (∃ p, Popen o command cwd stderr initial
          = Some (Return tt, set_process p (tick initial))).
Proof.
  unfold Popen.
  destruct (decide (interrupt_at o = Some (ticks initial))) as [Hint|Hquiet].
  { erewrite bind_Raise by (by apply Command_checkpoint_interrupted). eauto. }
  erewrite bind_Return by (by apply Command_checkpoint_quiet).
  destruct (get_handle stderr) as [r|e] eqn:Hh.
  - erewrite bind_Return by reflexivity.
    destruct (spawn o command cwd) as [errno|prog]; [left|right]; eauto.
  - erewrite bind_Raise by reflexivity. eauto.
Qed.

Lemma Popen_interrupted o command cwd stderr :
  interrupt_at o = Some O →
  Popen o command cwd stderr initial
  = Some (Raise KeyboardInterrupt, tick initial).
Proof.
  intros Hint. unfold Popen.
  by erewrite bind_Raise by (by apply Command_checkpoint_interrupted).
Qed.


(** A path where a descriptor is expected makes [Popen] raise before
    it tries to run anything. *)
Lemma Popen_refuses_path o command cwd path :
  interrupt_at o ≠ Some O →
  Popen o command cwd (PyStr path) initial
  = Some (Raise (AttributeError "'str' object has no attribute 'fileno'"),
          tick initial).
Proof.
  intros Hquiet. unfold Popen.
  erewrite bind_Return by (by apply Command_checkpoint_quiet).
  by erewrite bind_Raise by reflexivity.
Qed.

(** The closing [process.poll()], once there is a child: the pair is
    returned, unless the interrupt arrives just then. *)
Lemma closing_poll o w p :
  process w = Some p →
  ∃ r w', (checkpoint o ;; code <- poll ;; w <- get ;; ret (code, output w)) w
          = Some (r, w')
          ∧ (r = Raise KeyboardInterrupt ∧ interrupt_at o = Some (ticks w)
             ∨ ∃ code, r = Return (code, output w)
                       ∧ (code = Some (returncode p) ∧ running p = O
                          ∨ code = None ∧ running p ≠ O)).
Proof.
  intros Hp.
  destruct (decide (interrupt_at o = Some (ticks w))) as [Hint|Hquiet].
  { erewrite bind_Raise by (by apply Command_checkpoint_interrupted).
    eexists _, _. split; [reflexivity|]. by left. }
  erewrite bind_Return by (by apply Command_checkpoint_quiet).
  destruct (running p) as [|n] eqn:Hn.
  - erewrite bind_Return by (by eapply poll_exited).
    erewrite bind_Return by reflexivity.
    eexists _, _. split; [reflexivity|]. right. eauto.
  - erewrite bind_Return by (by eapply poll_running).
    erewrite bind_Return by reflexivity.
    eexists _, _. split; [reflexivity|]. right. eauto.
Qed.

(** Once the child has been spawned, [Command] returns a pair, whether
    or not the user interrupts the wait; only an interrupt during the
    closing [process.poll()] is raised. *)
Lemma Command_returns_once_spawned o command (stderr : bool) cwd w1 :
  Popen o command cwd (if stderr then subprocess_STDOUT else os_devnull)
        initial = Some (Return tt, w1) →
  ∃ r w, Command o command stderr cwd = Some (r, w)
         ∧ (r = Raise KeyboardInterrupt ∧ interrupt_at o ≠ None
            ∨ ∃ code lines, r = Return (code, lines)).
Proof.
  intros Hspawn.
  assert (∃ p, process w1 = Some p) as [p Hp].
  { destruct (Popen_initial o command cwd
                (if stderr then subprocess_STDOUT else os_devnull))
      as [[e H]|[p H]]; rewrite H in Hspawn; [discriminate|].
    injection Hspawn as <-. simpl. eauto. }
  destruct (wait_loop_total o (wait_budget w1) w1 p Hp)
    as (r & w2 & p2 & Hwait & Hr & Hp2 & _).
  { unfold wait_budget. rewrite Hp. lia. }
  unfold Command, Command_body.
  assert (try_except
            (Popen o command cwd
               (if stderr then subprocess_STDOUT else os_devnull) ;;
             w <- get ;; wait_loop o (wait_budget w))
            (λ e, match e with
                  | KeyboardInterrupt => Some (ret tt)
                  | OSError _ => Some (raise e)
                  | _ => None
                  end) initial = Some (Return tt, w2)) as Htry.
  { unfold try_except.
    erewrite bind_Return by exact Hspawn.
    erewrite bind_Return by reflexivity.
    rewrite Hwait. destruct Hr as [[-> _] | ->]; reflexivity. }
  erewrite bind_Return by exact Htry.
  destruct (closing_poll o w2 p2 Hp2) as (r' & w3 & -> & Hr').
  exists r', w3. split; [reflexivity|].
  destruct Hr' as [[-> Hint]|(code & -> & _)]; [left|right; eauto].
  split; [reflexivity|]. by rewrite Hint.
Qed.

(** [Command] ends, whatever the machine does. *)
Lemma Command_total o command (stderr : bool) cwd :
  ∃ r w, Command o command stderr cwd = Some (r, w).
Proof.
  destruct (Popen_initial o command cwd
              (if stderr then subprocess_STDOUT else os_devnull))
    as [[e H]|[p H]].
  - unfold Command, Command_body.
    rewrite bind_unfold. unfold try_except. erewrite bind_Raise by exact H.
    destruct e; simpl; eauto.
    destruct (decide (interrupt_at o = Some (ticks (tick initial))))
      as [Hint|Hquiet].
    + erewrite bind_Raise by (by apply Command_checkpoint_interrupted). eauto.
    + erewrite bind_Return by (by apply Command_checkpoint_quiet).
      simpl. eauto.
  - destruct (Command_returns_once_spawned _ _ _ _ _ H)
      as (r & w & -> & _). eauto.
Qed.

(** With nothing left in the pipe and nobody interrupting, the loop
    polls until the child is gone and changes nothing else. *)
Lemma wait_loop_drained o n :
  interrupt_at o = None →
  ∀ w code,
    process w = Some {| stdout := []; running := n; returncode := code |} →
    wait_loop o (S n) w
    = Some (Return tt,
            {| ticks := ticks w + 2 * n + 1;
               process := Some {| stdout := []; running := O;
                                  returncode := code |};
               output := output w |}).
Proof.
  intros Hquiet.
  assert (∀ w, interrupt_at o ≠ Some (ticks w)) as Hq
    by (intros w; rewrite Hquiet; discriminate).
  induction n as [|n IH]; intros w code Hp; rewrite wait_loop_S.
  - erewrite bind_Return by apply Command_checkpoint_quiet, Hq.
    erewrite bind_Return by (by eapply poll_exited).
    unfold ret, tick. simpl. rewrite Hp. do 3 f_equal. lia.
  - erewrite bind_Return by apply Command_checkpoint_quiet, Hq.
    erewrite bind_Return by (by eapply poll_running).
    cbv beta iota.
    erewrite bind_Return by reflexivity.
    unfold drain_budget. simpl. rewrite drain_S.
    erewrite bind_Return.
    2:{ erewrite bind_Return by apply Command_checkpoint_quiet, Hq.
        erewrite bind_Return by (by eapply readline_split).
        reflexivity. }
    rewrite IH with (code := code); [|reflexivity].
    simpl. do 3 f_equal. lia.
Qed.

(** Uninterrupted, one pass over the pipe reads it to its end and
    appends the stripped, non-empty lines in order. *)
Lemma drain_collects o :
  interrupt_at o = None →
  ∀ fuel w p, process w = Some p → (length (stdout p) < fuel)%nat →
  ∃ k, drain o fuel w
       = Some (Return tt,
               {| ticks := ticks w + k;
                  process := Some {| stdout := []; running := running p;
                                     returncode := returncode p |};
                  output := output w ++ kept (lines (stdout p)) |}).
Proof.
  intros Hquiet.
  assert (∀ w, interrupt_at o ≠ Some (ticks w)) as Hq
    by (intros w; rewrite Hquiet; discriminate).
  induction fuel as [|fuel IH]; intros w p Hp Hlen; [lia|].
  rewrite drain_S.
  erewrite bind_Return by apply Command_checkpoint_quiet, Hq.
  destruct (split_line (stdout p)) as [line rest] eqn:Hsplit.
  erewrite bind_Return by (eapply readline_split; [exact Hp|exact Hsplit]).
  pose proof (split_line_length _ _ _ Hsplit) as [Hsum Hempty].
  destruct line as [|c line].
  - rewrite (Hempty eq_refl) in *. simpl in *.
    destruct rest; [|simpl in Hsum; lia].
    exists 1%nat. unfold ret, set_process, tick. simpl.
    rewrite app_nil_r. do 3 f_equal. lia.
  - assert (stdout p ≠ []) as Hne by (intros H; by rewrite H in Hsplit).
    rewrite (lines_split _ _ _ Hne Hsplit).
    unfold kept. simpl List.filter. simpl in Hsum.
    destruct (0 <? Z.of_nat (length (strip (c :: line))));
      (erewrite bind_Return by reflexivity);
      match goal with
      | |- context [drain _ _ ?w1] =>
          edestruct (IH w1) as (k & ->); [reflexivity|simpl; lia|]
      end;
      exists (S k); unfold append_output, set_process, tick; simpl;
      rewrite <- ?app_assoc; do 3 f_equal; lia.
Qed.

(** The function of [Command] on an uninterrupted run, when the merge
    flag is set and the first [poll()] finds the child still running:
    the exit status, and the stripped non-empty lines of everything the
    child wrote, in order. *)
Lemma Command_collects prog command cwd n :
  polls_while_running prog = S n →
  fst <$> Command (machine prog None) command true cwd
  = Some (Return (Some (exit_status prog),
                  kept (lines (captured ToStdout prog)))).
Proof.
  intros Halive. set (o := machine prog None).
  set (w1 := set_process {| stdout := captured ToStdout prog;
                            running := S n;
                            returncode := exit_status prog |}
                         (tick initial)).
  assert (Popen o command cwd subprocess_STDOUT initial
          = Some (Return tt, w1)) as Hspawn.
  { unfold Popen.
    erewrite bind_Return by (by apply Command_checkpoint_quiet).
    erewrite bind_Return by reflexivity.
    simpl. unfold modify, w1. by rewrite Halive. }
  destruct (drain_collects o eq_refl
              (S (length (captured ToStdout prog)))
              (set_process {| stdout := captured ToStdout prog;
                              running := n;
                              returncode := exit_status prog |} (tick w1))
              _ eq_refl) as (k & Hdrain); [simpl; lia|].
  assert (∃ k', wait_loop o (S (S n)) w1
                = Some (Return tt,
                        {| ticks := k';
                           process := Some {| stdout := []; running := O;
                                              returncode := exit_status prog |};
                           output := kept (lines (captured ToStdout prog)) |}))
    as (k' & Hwait).
  { rewrite wait_loop_S.
    erewrite bind_Return by (by apply Command_checkpoint_quiet).
    erewrite bind_Return by (by eapply poll_running).
    cbv beta iota.
    erewrite bind_Return by reflexivity.
    erewrite bind_Return by exact Hdrain.
    rewrite wait_loop_drained with (code := exit_status prog)
      by reflexivity.
    eauto. }
  unfold Command, Command_body.
  erewrite bind_Return.
  2:{ unfold try_except.
      erewrite bind_Return by exact Hspawn.
      erewrite bind_Return by reflexivity.
      change (wait_budget w1) with (S (S n)). rewrite Hwait. reflexivity. }
  erewrite bind_Return by (by apply Command_checkpoint_quiet).
  reflexivity.
Qed.

(** The same run when the child has exited before the first [poll()]:
    the loop is left before anything is read, and whatever the child
    wrote is dropped. *)
Lemma Command_drops_output_of_exited_child prog command cwd :
  polls_while_running prog = O →
  fst <$> Command (machine prog None) command true cwd
  = Some (Return (Some (exit_status prog), [])).
Proof.
  intros Hgone. unfold Command, Command_body.
  erewrite bind_Return.
  2:{ unfold try_except, Popen.
      erewrite bind_Return.
      2:{ erewrite bind_Return by (by apply Command_checkpoint_quiet).
          erewrite bind_Return by reflexivity.
          simpl. rewrite Hgone. reflexivity. }
      reflexivity. }
  erewrite bind_Return by (by apply Command_checkpoint_quiet).
  reflexivity.
Qed.

(** [echo hello], found still running by the first [poll()]: exit
    code 0 and the one line [hello]. *)
Lemma Command_echo_hello_polled_alive n :
  fst <$> Command (machine (echo_hello (S n)) None) ["echo"; "hello"] true None
  = Some (Return (Some 0, [b "hello"])).
Proof. by rewrite (Command_collects _ _ _ n). Qed.

(** With the merge flag set, everything the child writes on either
    stream reaches the pipe [Command] reads, in the order written. *)
Lemma captured_merged prog :
  get_handle subprocess_STDOUT = Return ToStdout
  ∧ captured ToStdout prog = concat (map snd (writes prog)).
Proof.
  split; [reflexivity|]. unfold captured. f_equal. f_equal.
  induction (writes prog) as [|[[] s] l IH]; simpl; by rewrite ?IH.
Qed.

(** C3.  [Command(["echo", "hello"])] when the child has written its
    line and exited before the first [poll()]: the loop is left at
    once and the line in the pipe is never read.  The call returns
    exit code 0 with an empty output sequence. *)
Theorem Command_echo_hello_exited_before_poll :
  fst <$> Command (machine (echo_hello 0) None) ["echo"; "hello"] true None
  = Some (Return (Some 0, [])).
Proof. reflexivity. Qed.

(** C4.  With the merge flag false, [Popen] is handed the string
    [os.devnull] as [stderr]; no command runs, and the call raises
    [AttributeError] on every machine, for every command and
    directory. *)
Theorem Command_without_merge_raises o command cwd :
  ∃ msg w, Command o command false cwd = Some (Raise (AttributeError msg), w).
Proof.
  unfold Command, Command_body. rewrite bind_unfold. unfold try_except.
  destruct (decide (interrupt_at o = Some O)) as [Hint|Hquiet].
  - erewrite bind_Raise by (by apply Popen_interrupted). cbv beta iota.
    change (ret tt (tick initial)) with (Some (Return tt, tick initial)).
    cbv beta iota.
    erewrite bind_Return
      by (apply Command_checkpoint_quiet; rewrite Hint; discriminate).
    simpl. eauto.
  - erewrite bind_Raise by (by apply Popen_refuses_path). simpl. eauto.
Qed.



(** C6.  An interrupt that arrives while [Popen] is spawning the child
    is caught, but [process] is still [None] when the function goes on
    to [process.poll()]: the call raises [AttributeError], for every
    child program, command, flag and directory. *)
Theorem Command_interrupted_spawn_raises prog command stderr cwd :
  fst <$> Command (machine prog (Some O)) command stderr cwd
  = Some (Raise (no_attribute "poll")).
Proof. reflexivity. Qed.

End CommandFacts.


(** ** The readiness waiter *)

Section SelectFacts.
Import Select.
Implicit Types (o : os) (w : world).

Lemma poll_loop_S o fuel end_ res :
  poll_loop o (S fuel) end_ res
  = (checkpoint o ;;
     t <- reading o ;;
     if t <? end_ then
       res <- select o ;;
       match res with
       | [] => poll_loop o fuel end_ (Some res)
       | _ => ret (Some res)
       end
     else ret res).
Proof. reflexivity. Qed.

Local Arguments poll_loop : simpl never.

Lemma clock_pass o w : clock w ≤ clock (pass o w).
Proof. simpl. lia. Qed.

(** What the clock has been set back by only grows, and stays below
    what it is set back by in all. *)
Lemma sum_take_le (l : list N) :
  ∀ n m, (n ≤ m)%nat →
  (foldr N.add 0 (take n l) ≤ foldr N.add 0 (take m l))%N.
Proof.
  induction l as [|x l IH]; intros [|n] [|m] H; simpl; try lia.
  specialize (IH n m). lia.
Qed.

Lemma lost_mono o n m : (n ≤ m)%nat → lost o n ≤ lost o m.
Proof.
  intros H. unfold lost.
  pose proof (sum_take_le (set_back o) n m H). lia.
Qed.

Lemma lost_bounds o n : 0 ≤ lost o n ≤ lost_in_all o.
Proof.
  unfold lost_in_all. split; [unfold lost; lia|].
  destruct (le_lt_dec n (length (set_back o))).
  - by apply lost_mono.
  - unfold lost. rewrite !take_ge by lia. lia.
Qed.


(** A checkpoint lets the call's time pass, and nothing else. *)
Lemma checkpoint_spec o w :
  checkpoint o w
  = Some (if decide (interrupt_at o = Some (ticks w))
          then Raise KeyboardInterrupt else Return tt,
          pass o w).
Proof.
  unfold checkpoint, elapse, bind, get, modify. simpl.
  by destruct (decide _).
Qed.

Lemma now_spec o w :
  now o w = Some (Return (clock (pass o w) - lost o (S (ticks w))), pass o w).
Proof. reflexivity. Qed.

(** The deadline, when it can be computed, is the reading plus the
    timeout; when it cannot, the error is an [OverflowError]. *)
Lemma timedelta_spec timeout :
  timedelta timeout = Return timeout
  ∧ timedelta_min ≤ timeout ≤ timedelta_max
  ∨ ∃ msg, timedelta timeout = Raise (OverflowError msg).
Proof.
  unfold timedelta.
  destruct (Z.ltb_spec timeout timedelta_min);
    destruct (Z.ltb_spec timedelta_max timeout); simpl; eauto with lia.
Qed.

Lemma datetime_add_spec t d :
  datetime_add t d = Return (t + d) ∧ 0 ≤ t + d ≤ datetime_max
  ∨ ∃ msg, datetime_add t d = Raise (OverflowError msg).
Proof.
  unfold datetime_add.
  destruct (Z.ltb_spec (t + d) 0);
    destruct (Z.ltb_spec datetime_max (t + d)); simpl; eauto with lia.
Qed.

(** What goes before the [try] statement and what comes after it. *)
Lemma Select_unfold o rds wrts timeout logger :
  Select o rds wrts timeout logger
  = match timedelta timeout with
    | Raise e => Some (Raise e, pass o (initial o))
    | Return d =>
        match datetime_add (boot o + Z.of_N (latency o O) - lost o 1) d with
        | Raise e => Some (Raise e, pass o (initial o))
        | Return end_ =>
            match create_error o with
            | Some errno =>
                Some (Raise (OSError errno), pass o (pass o (initial o)))
            | None =>
                (r <- try_statement o (as_list rds) (as_list wrts)
                        timeout end_ logger ;;
                 match r with
                 | Returned v => ret v
                 | Fallthrough res =>
                     (if logger
                      then t <- now o ;;
                           modify (write_log
                                     (debug_interval
                                        (t - (boot o + Z.of_N (latency o O)
                                              - lost o 1))))
                      else ret tt) ;;
                     ret res
                 end)
                  (set_sel {| fd_to_key := ∅; closed := false |}
                     (pass o (pass o (initial o))))
            end
        end
    end.
Proof.
  unfold Select, Select_body.
  erewrite bind_Return by apply now_spec.
  change (clock (pass o (initial o)) - lost o (S (ticks (initial o))))
    with (boot o + Z.of_N (latency o O) - lost o 1).
  unfold bind at 1, lift at 1.
  destruct (timedelta timeout) as [d|e]; [|reflexivity].
  unfold bind at 1, lift at 1.
  destruct (datetime_add _ d) as [end_|e]; [|reflexivity].
  unfold bind at 1, DefaultSelector, bind at 1, elapse, modify at 1.
  destruct (create_error o); reflexivity.
Qed.

(** One wait, spelled out. *)
Lemma select_spec o w :
  select o w
  = if decide (interrupt_at o = Some (ticks w))
    then Some (Raise KeyboardInterrupt, pass o w)
    else match poll_error o (polls w) with
         | Some errno => Some (Raise (OSError errno), count_poll (pass o w))
         | None =>
             match List.filter (watched (sel w)) (kernel_ready o (polls w)) with
             | [] => Some (Return [], advance slice (count_poll (pass o w)))
             | r => Some (Return r, count_poll (pass o w))
             end
         end.
Proof.
  unfold select. rewrite bind_unfold, checkpoint_spec.
  destruct (decide _); [reflexivity|].
  unfold bind, get, modify, raise, ret. simpl.
  destruct (poll_error o (polls w)); [reflexivity|].
  by destruct (List.filter _ _).
Qed.

(** One test of the loop, spelled out. *)
Lemma poll_loop_step o fuel end_ res w :
  poll_loop o (S fuel) end_ res w
  = if decide (interrupt_at o = Some (ticks w))
    then Some (Raise KeyboardInterrupt, pass o w)
    else if clock (pass o w) - lost o (S (ticks w)) <? end_
         then (res <- select o ;;
               match res with
               | [] => poll_loop o fuel end_ (Some res)
               | _ => ret (Some res)
               end) (pass o w)
         else Some (Return res, pass o w).
Proof.
  rewrite poll_loop_S, bind_unfold, checkpoint_spec.
  destruct (decide _); [reflexivity|].
  unfold bind at 1, reading, bind at 1, get, ret. cbn [fst snd ticks pass].
  by destruct (_ <? _).
Qed.

(** The polling loop ends within [fuel] further turns when the
    deadline, with all the clock is set back by, is at most [fuel]
    slices away.  It leaves the selector as it found it. *)
Lemma poll_loop_total o end_ fuel :
  ∀ w res, end_ - clock w + lost_in_all o ≤ Z.of_nat fuel * slice →
  ∃ r w', poll_loop o (S fuel) end_ res w = Some (r, w')
          ∧ sel w' = sel w.
Proof.
  induction fuel as [|fuel IH]; intros w res Hfar;
    rewrite poll_loop_step;
    pose proof (clock_pass o w) as Hpass;
    pose proof (lost_bounds o (S (ticks w))) as Hlost.
  - destruct (decide _); [eauto|].
    destruct (Z.ltb_spec (clock (pass o w) - lost o (S (ticks w))) end_);
      [lia|eauto].
  - destruct (decide _); [eauto|].
    destruct (Z.ltb_spec (clock (pass o w) - lost o (S (ticks w))) end_);
      [|eauto].
    rewrite bind_unfold, select_spec.
    destruct (decide _); [eauto|].
    simpl polls. destruct (poll_error o (polls w)); [eauto|].
    destruct (List.filter _ _) as [|x l]; [|unfold ret; eauto].
    cbv beta iota.
    match goal with
    | |- context [poll_loop _ _ _ _ ?w1] =>
        destruct (IH w1 (Some [])) as (r & w' & Hloop & Hsel)
    end.
    + unfold slice in *. simpl in *. lia.
    + exists r, w'. split; [exact Hloop|exact Hsel].
Qed.

Lemma poll_budget_enough x :
  x ≤ Z.of_nat (S (Z.to_nat (x / slice))) * slice.
Proof.
  unfold slice. destruct (Z.le_gt_cases 0 x) as [Hpos|Hneg]; [|lia].
  rewrite Nat2Z.inj_succ, Z2Nat.id by (apply Z.div_pos; lia).
  pose proof (Z.mul_succ_div_gt x 100000). lia.
Qed.

(** The [finally] clause: whatever [close()] does, the selector is
    closed after it, no exception leaves the clause, no wait was
    made and no time has passed. *)
Lemma close_clause_spec o logger w :
  ∃ w', try_except (close o)
          (λ e, if is_Exception e
                then Some (tell logger (error_close e))
                else None) w = Some (Return tt, w')
        ∧ closed (sel w') = true
        ∧ polls w' = polls w
        ∧ clock w' = clock w.
Proof.
  unfold try_except, close, bind, get, modify, raise, tell.
  simpl. destruct (close_error o); simpl.
  - destruct logger; eexists; split; reflexivity || auto.
  - eexists. split; reflexivity || auto.
Qed.

(** What holds however the polling loop ends: the clock has not gone
    back; every wait but the last took a slice of the time that was
    left; an exception is one [Select] catches; and a value is either
    a non-empty list, or is handed back when the wall clock has
    reached the deadline. *)
Lemma poll_loop_facts o end_ fuel :
  ∀ w res r w',
    (1 ≤ ticks w)%nat →
    poll_loop o fuel end_ res w = Some (r, w') →
    clock w ≤ clock w'
    ∧ (polls w' = polls w
       ∨ (polls w < polls w')%nat
         ∧ (Z.of_nat (polls w' - polls w) - 1) * slice
           < end_ - clock w + lost_in_all o)
    ∧ (∀ e, r = Raise e → caught e)
    ∧ (∀ x, r = Return x →
            ((x = res ∨ x = Some []) ∧ end_ + lost o 1 ≤ clock w')
            ∨ ∃ c l, x = Some (c :: l)).
Proof.
  induction fuel as [|fuel IH]; intros w res r w' Hticks; [discriminate|].
  rewrite poll_loop_step.
  pose proof (clock_pass o w) as Hpass.
  pose proof (lost_bounds o (S (ticks w))) as Hlost.
  pose proof (lost_mono o 1 (S (ticks w))) as Hmono.
  destruct (decide _) as [Hint|Hquiet1].
  { intros [= <- <-]. split; [exact Hpass|]. split; [by left|].
    split; [intros e [= <-]; by left|intros x [=]]. }
  destruct (Z.ltb_spec (clock (pass o w) - lost o (S (ticks w))) end_)
    as [Hbefore|Hafter].
  2:{ intros [= <- <-]. split; [exact Hpass|]. split; [by left|].
      split; [intros e [=]|]. intros x [= <-]. left.
      split; [by left|]. lia. }
  rewrite bind_unfold, select_spec.
  pose proof (clock_pass o (pass o w)) as Hpass2.
  destruct (decide _) as [Hint|Hquiet2].
  { intros [= <- <-]. split; [lia|]. split; [by left|].
    split; [intros e [= <-]; by left|intros x [=]]. }
  simpl polls. destruct (poll_error o (polls w)) as [errno|].
  { intros [= <- <-]. simpl in *.
    split; [lia|]. split; [right; unfold slice; split; lia|].
    split; [|intros x [=]]. intros e [= <-]. right. eauto. }
  destruct (List.filter _ _) as [|c l].
  - cbv beta iota. intros Hrest.
    apply IH in Hrest as (Hclock & Hpolls & Hexc & Hret); [|simpl; lia].
    simpl in *. unfold slice in *.
    split; [lia|]. split.
    { right. destruct Hpolls as [->|[Hlt Hbound]]; split; lia. }
    split; [exact Hexc|].
    intros x Hx. destruct (Hret x Hx) as [[[->| ->] Hend]|Hlist]; eauto.
  - unfold ret. intros [= <- <-]. simpl in *.
    split; [lia|]. split; [right; unfold slice; split; lia|].
    split; [intros e [=]|]. intros x [= <-]. eauto.
Qed.

(** Registering makes no wait and does not turn the clock back;
    what it raises is caught by [Select], or is a [KeyError], a
    [ValueError] or an [OverflowError]. *)
Lemma register_keeps o fd ev (c0 : Z) :
  total (λ w, c0 ≤ clock w ∧ polls w = O ∧ (1 ≤ ticks w)%nat)
        (register o fd ev)
        (λ r w, (c0 ≤ clock w ∧ polls w = O ∧ (1 ≤ ticks w)%nat)
                ∧ ∀ e, r = Raise e → caught e ∨ unhandled e).
Proof.
  intros w (Hclock & Hpolls & Hticks). unfold register.
  pose proof (clock_pass o w).
  rewrite bind_unfold, checkpoint_spec. unfold caught, unhandled.
  destruct (decide (interrupt_at o = Some (ticks w))) as [Hint|Hquiet'].
  { eexists _, _. split; [reflexivity|]. simpl.
    split; [auto with lia|]. intros e [= <-]. eauto. }
  unfold bind, get, modify, raise. cbn [fst snd].
  destruct (fd <? 0).
  { eexists _, _. split; [reflexivity|]. simpl.
    split; [auto with lia|]. intros e [= <-]. eauto. }
  destruct (decide (is_Some _)) as [Hreg|Hfree].
  { eexists _, _. split; [reflexivity|]. simpl.
    split; [auto with lia|]. intros e [= <-]. eauto. }
  destruct (2147483647 <? fd).
  { eexists _, _. split; [reflexivity|]. simpl.
    split; [auto with lia|]. intros e [= <-]. eauto 6. }
  destruct (refused o fd);
    (eexists _, _; split; [reflexivity|]; simpl;
     split; [auto with lia|]; intros e [=]; subst; eauto).
Qed.




(** What the [try] block leaves, whatever it is given. *)
Lemma try_block_facts o rds wrts timeout end_ (c0 : Z) :
  end_ = c0 - lost o 1 + timeout →
  total (λ w, c0 ≤ clock w ∧ polls w = O ∧ (1 ≤ ticks w)%nat)
        (try_block o rds wrts timeout end_)
        (λ r w, c0 ≤ clock w
                ∧ Z.of_nat (polls w) * slice
                  < Z.max timeout 0 + lost_in_all o + slice
                ∧ (r = Return (Fallthrough (Some [])) → c0 + timeout ≤ clock w)
                ∧ (∀ e, r = Raise e → caught e ∨ unhandled e)
                ∧ (∀ v, r ≠ Return (Returned v))).
Proof.
  intros Hend. unfold try_block.
  pose proof (lost_bounds o 1) as Hlost1.
  set (I0 := λ w, c0 ≤ clock w ∧ polls w = O ∧ (1 ≤ ticks w)%nat).
  set (G := λ (r : outcome (flow (option ready_list) (option ready_list))) w,
         c0 ≤ clock w
         ∧ Z.of_nat (polls w) * slice < Z.max timeout 0 + lost_in_all o + slice
         ∧ (r = Return (Fallthrough (Some [])) → c0 + timeout ≤ clock w)
         ∧ (∀ e, r = Raise e → caught e ∨ unhandled e)
         ∧ (∀ v, r ≠ Return (Returned v))).
  assert (∀ w, I0 w → ∀ r,
            (∀ e, r = Raise e → caught e ∨ unhandled e) →
            (∀ a, r ≠ Return a) → G r w) as Gfail.
  { intros w (Hc & Hp & _) r He Hr. unfold G, slice. rewrite Hp.
    split; [lia|]. split; [lia|]. split; [|split; [exact He|]].
    - intros ->. by destruct (Hr (Fallthrough (Some []))).
    - intros v ->. by destruct (Hr (Returned v)). }
  set (R0 := λ (r : outcome unit) w,
         I0 w ∧ ∀ e, r = Raise e → caught e ∨ unhandled e).
  assert (∀ ev l, total I0 (for_each l (λ fd, register o fd ev)) R0)
    as Hregs.
  { intros ev l. apply total_for_each.
    - intros fd _. eapply total_weaken;
        [apply (register_keeps o fd ev c0)|intros w' H; exact H|].
      intros [[]|e] w [Hinv He]; [exact Hinv|]. split; [exact Hinv|].
      intros e' [= <-]. by apply He.
    - intros w Hinv. split; [exact Hinv|]. intros e [=]. }
  change (total I0
            (for_each rds (λ rd, register o rd EVENT_READ) ;;
             for_each wrts (λ wr, register o wr EVENT_WRITE) ;;
             res <- poll_loop o (poll_budget o timeout) end_ None ;;
             ret (Fallthrough (R := option ready_list) res)) G).
  eapply total_bind with (R := R0).
  - apply Hregs.
  - intros []. eapply total_bind with (R := R0).
    + eapply total_weaken; [apply Hregs| |intros r w H; exact H].
      intros w [Hinv _]. exact Hinv.
    + intros []. intros w [(Hclock & Hpolls & Hticks) _].
      destruct (poll_loop_total o end_
                  (S (Z.to_nat ((timeout + lost_in_all o) / slice))) w None)
        as (r & w' & Hloop & _).
      { pose proof (poll_budget_enough (timeout + lost_in_all o)). lia. }
      pose proof (poll_loop_facts _ _ _ _ _ _ _ Hticks Hloop)
        as (Hck & Hpl & Hexc & Hret).
      unfold poll_budget. rewrite bind_unfold, Hloop.
      assert (Z.of_nat (polls w') * slice
              < Z.max timeout 0 + lost_in_all o + slice) as Hbound.
      { unfold slice in *. rewrite Hpolls in Hpl.
        pose proof (lost_bounds o 0).
        destruct Hpl as [->|[Hlt Hb]]; [lia|].
        replace (polls w' - 0)%nat with (polls w') in Hb by lia. lia. }
      destruct r as [x|e].
      * eexists _, _. split; [reflexivity|]. unfold G.
        split; [lia|]. split; [exact Hbound|].
        split; [|split; [intros e [=]|intros v [=]]].
        intros [= ->].
        destruct (Hret _ eq_refl) as [[_ Hdone]|(c & l & [=])]. lia.
      * eexists _, _. split; [reflexivity|]. unfold G.
        split; [lia|]. split; [exact Hbound|]. split; [intros [=]|].
        split; [|intros v [=]].
        intros e' [= <-]. left. by apply Hexc.
    + intros e w [Hinv He]. apply Gfail; try done.
      intros e' [= <-]. by apply He.
  - intros e w [Hinv He]. apply Gfail; try done.
    intros e' [= <-]. by apply He.
Qed.

(** The [try] statement ends with the selector closed; it catches
    what its block raises, [KeyError], [ValueError] and
    [OverflowError] apart, and then hands on [None]. *)
Lemma try_statement_facts o rds wrts timeout end_ logger (c0 : Z) :
  end_ = c0 - lost o 1 + timeout →
  total (λ w, c0 ≤ clock w ∧ polls w = O ∧ (1 ≤ ticks w)%nat)
        (try_statement o rds wrts timeout end_ logger)
        (λ r w, closed (sel w) = true
                ∧ c0 ≤ clock w
                ∧ Z.of_nat (polls w) * slice
                  < Z.max timeout 0 + lost_in_all o + slice
                ∧ (r = Return (Fallthrough (Some [])) → c0 + timeout ≤ clock w)
                ∧ (∀ e, r = Raise e → unhandled e)
                ∧ (∀ v, r = Return (Returned v) → v = None)).
Proof.
  intros Hend w Hw.
  destruct (try_block_facts o rds wrts timeout end_ c0 Hend w Hw)
    as (r & w1 & Hrun & Hc1 & Hb1 & Hd1 & He1 & Hn1).
  assert (∃ r2 w2,
            try_except
              (try_block o rds wrts timeout end_)
              (λ e, match e with
                    | OSError errno =>
                        Some (tell logger
                                (error_OSError errno (strerror o errno)) ;;
                              ret (Returned None))
                    | KeyboardInterrupt => Some (ret (Returned None))
                    | _ => None
                    end) w = Some (r2, w2)
            ∧ c0 ≤ clock w2
            ∧ Z.of_nat (polls w2) * slice
              < Z.max timeout 0 + lost_in_all o + slice
            ∧ (r2 = Return (Fallthrough (Some [])) → c0 + timeout ≤ clock w2)
            ∧ (∀ e, r2 = Raise e → unhandled e)
            ∧ (∀ v, r2 = Return (Returned v) → v = None))
    as (r2 & w2 & Htry & Hc2 & Hb2 & Hd2 & He2 & Hv2).
  { unfold try_except. rewrite Hrun. destruct r as [v|e].
    - eexists _, _. split; [reflexivity|].
      split; [exact Hc1|]. split; [exact Hb1|]. split; [exact Hd1|].
      split; [intros e [=]|].
      intros x [= ->]. by destruct (Hn1 x).
    - destruct (He1 e eq_refl) as [[->|[errno ->]]|Hun].
      + eexists _, _. split; [reflexivity|].
        split; [exact Hc1|]. split; [exact Hb1|]. split; [intros [=]|].
        split; [intros e [=]|by intros v [= <-]].
      + destruct logger; eexists _, _; (split; [reflexivity|]);
          (split; [exact Hc1|]); (split; [exact Hb1|]);
          (split; [intros [=]|]);
          (split; [intros e [=]|by intros v [= <-]]).
      + destruct Hun as [msg [->|[->| ->]]];
          (eexists _, _; split; [reflexivity|];
           split; [exact Hc1|]; split; [exact Hb1|]; split; [intros [=]|];
           split; [intros e [= <-]; unfold unhandled; eauto 6|intros v [=]]). }
  destruct (close_clause_spec o logger w2) as (w3 & Hclose & Hclosed & Hp3 & Hc3).
  unfold try_statement, try_finally. rewrite Htry, Hclose.
  eexists _, _. split; [reflexivity|].
  rewrite Hp3, Hc3. auto 10.
Qed.

(** Every call of [Select] ends, with the selector closed (or none
    made) and with what [guarantees] says. *)
Lemma Select_guarantees o rds wrts timeout logger :
  ∃ r w, Select o rds wrts timeout logger = Some (r, w)
         ∧ closed (sel w) = true
         ∧ guarantees o timeout r w.
Proof.
  rewrite Select_unfold. unfold guarantees, uncaught.
  pose proof (lost_bounds o 0) as Hlost.
  assert (∀ w : world, polls w = O →
            Z.of_nat (polls w) * slice
            < Z.max timeout 0 + lost_in_all o + slice) as Hnone.
  { intros w ->. unfold slice. lia. }
  destruct (timedelta_spec timeout) as [[-> _]|[msg ->]].
  2:{ eexists _, _. split; [reflexivity|]. split; [reflexivity|].
      split; [by apply Hnone|]. split; [intros [=]|].
      intros e [= <-]. left. unfold unhandled. eauto 6. }
  set (start := boot o + Z.of_N (latency o O) - lost o 1).
  destruct (datetime_add_spec start timeout) as [[-> _]|[msg ->]].
  2:{ eexists _, _. split; [reflexivity|]. split; [reflexivity|].
      split; [by apply Hnone|]. split; [intros [=]|].
      intros e [= <-]. left. unfold unhandled. eauto 6. }
  destruct (create_error o) as [errno|] eqn:Hcreate.
  { eexists _, _. split; [reflexivity|]. split; [reflexivity|].
    split; [by apply Hnone|]. split; [intros [=]|].
    intros e [= <-]. right. eauto. }
  set (w1 := set_sel _ _).
  destruct (try_statement_facts o (as_list rds) (as_list wrts) timeout
              (start + timeout) logger (boot o + Z.of_N (latency o O))
              ltac:(subst start; lia) w1)
    as (r & w2 & Hrun & Hclosed & Hclock & Hbound & Hdone & Hexc & Hnone').
  { subst w1. simpl. lia. }
  rewrite bind_unfold, Hrun.
  destruct r as [[res|v]|e].
  - destruct logger.
    + eexists _, _. split; [reflexivity|]. simpl.
      split; [exact Hclosed|]. split; [exact Hbound|].
      split; [|intros e [=]].
      intros [= ->]. specialize (Hdone eq_refl). lia.
    + eexists _, _. split; [reflexivity|]. simpl.
      split; [exact Hclosed|]. split; [exact Hbound|].
      split; [|intros e [=]].
      intros [= ->]. by apply Hdone.
  - eexists _, _. split; [reflexivity|]. simpl.
    split; [exact Hclosed|]. split; [exact Hbound|].
    split; [|intros e [=]].
    intros [= ->]. by specialize (Hnone' _ eq_refl).
  - eexists _, _. split; [reflexivity|]. simpl.
    split; [exact Hclosed|]. split; [exact Hbound|].
    split; [intros [=]|].
    intros e' [= <-]. left. by apply Hexc.
Qed.

(** C8.  Every call of [Select] ends, and however it ends (with a
    readiness result, at the deadline, with [None] after an operating
    system error or an interrupt, or with an exception) the selector
    has been closed: every path that has made one runs the [finally]
    clause, and the paths that leave before one is made leave nothing
    open. *)
Theorem Select_closes_selector o rds wrts timeout logger :
  ∃ r w, Select o rds wrts timeout logger = Some (r, w)
         ∧ closed (sel w) = true.
Proof.
  destruct (Select_guarantees o rds wrts timeout logger)
    as (r & w & Hrun & Hclosed & _).
  eauto.
Qed.



(** C7.  [Select] with a deadline that has passed when the loop is
    first tested (here: two channels, timeout 0, on a machine where
    nothing fails and nobody interrupts): no error, no interrupt, and
    the value returned is [None], not a list. *)
Theorem Select_expired_at_once_returns_None :
  fst <$> Select idle (One 3) (One 4) 0 false = Some (Return None).
Proof. reflexivity. Qed.


(** Two more: a descriptor that does not fit a C [int], and a
    deadline before the year 1 ([Select(3, 4, -10**12)]). *)
Example Select_descriptor_out_of_range :
  fst <$> Select idle (One 2147483648) (Several []) 0 false
  = Some (Raise (OverflowError "Python int too large to convert to C int")).
Proof. reflexivity. Qed.

Example Select_deadline_out_of_range :
  fst <$> Select idle (One 3) (One 4) (-1000000000000000000) false
  = Some (Raise (OverflowError "date value out of range")).
Proof. reflexivity. Qed.

End SelectFacts.


(** ** More on the registry *)

Section RegistryMore.
Context {T P K : Type} `{!SubParsers T P K}.
Implicit Types self : Callbacks.t T.
Import Callbacks.

(** What a call can do to the mapping: nothing, or add the one new
    name. *)
Lemma Register_callbacks_cases self name callback (kwargs : K) :
  callbacks (Register self name callback kwargs).2 = callbacks self
  ∨ (callbacks self !! name = None
     ∧ name ≠ command self
     ∧ callbacks (Register self name callback kwargs).2
       = <[name := callback]> (callbacks self)).
Proof.
  unfold Register.
  destruct (negb (callable callback)); [by left|].
  destruct (String.eqb name (command self)) eqn:Hcmd; [by left|].
  destruct (already_registered self name) eqn:Hreg; [by left|].
  apply String.eqb_neq in Hcmd. apply already_registered_false in Hreg.
  right. split; [done|]. split; [done|].
  destruct (parsers_add_parser _ _ _) as [e|[p tree1]]; [done|].
  by destruct (add_argument _ _ _).
Qed.

(** X1.  [Register] returns a sub-parser exactly when the handler is
    callable, the name is neither the primary command nor already
    registered, a parser collection has been attached, and the host
    accepts both the new sub-parser and its [--config] option; the
    registry it leaves then maps the name to the handler and holds the
    collection as the host updated it. *)
Theorem Register_returns_iff self name callback (kwargs : K) parser self' :
  Register self name callback kwargs = (Return parser, self')
  ↔ callable callback = true
    ∧ name ≠ command self
    ∧ callbacks self !! name = None
    ∧ ∃ tree tree1 tree2,
        parsers self = Some tree
        ∧ add_parser tree name kwargs = inr (parser, tree1)
        ∧ add_argument tree1 parser "--config" = inr tree2
        ∧ self' = {| command := command self;
                     callbacks := <[name := callback]> (callbacks self);
                     parsers := Some tree2 |}.
Proof.
  unfold Register. split.
  - destruct (callable callback); [|discriminate]. simpl.
    destruct (String.eqb name (command self)) eqn:Hcmd; [discriminate|].
    destruct (already_registered self name) eqn:Hreg; [discriminate|].
    apply String.eqb_neq in Hcmd. apply already_registered_false in Hreg.
    unfold parsers_add_parser, store. simpl.
    destruct (parsers self) as [tree|] eqn:Htree; [|discriminate].
    destruct (add_parser tree name kwargs) as [e|[p tree1]] eqn:Hadd;
      [discriminate|].
    destruct (add_argument tree1 p "--config") as [e|tree2] eqn:Harg;
      [discriminate|].
    intros [= <- <-]. repeat split; try done.
    by exists tree, tree1, tree2.
  - intros (Hcall & Hcmd & Hreg & tree & tree1 & tree2
            & Htree & Hadd & Harg & ->).
    rewrite Hcall. simpl.
    apply String.eqb_neq in Hcmd. rewrite Hcmd.
    apply already_registered_false in Hreg. rewrite Hreg.
    unfold parsers_add_parser, store. simpl.
    rewrite Htree, Hadd, Harg. reflexivity.
Qed.

(** X2.  No call of [Register], however it ends, removes or replaces a
    handler that is already registered. *)
Theorem Register_never_overwrites self name callback (kwargs : K) k h :
  callbacks self !! k = Some h →
  callbacks (Register self name callback kwargs).2 !! k = Some h.
Proof.
  intros Hk.
  destruct (Register_callbacks_cases self name callback kwargs)
    as [->|(Hnew & _ & ->)]; [done|].
  rewrite lookup_insert_ne; [done|]. intros ->. congruence.
Qed.

(** X3.  The primary command is never registered as a sub-command: if
    the mapping has no entry under it before a call of [Register], it
    has none after, however the call ends and whatever name it was
    given; and the primary command itself is never changed. *)
Theorem Register_never_stores_command self name callback (kwargs : K) :
  callbacks self !! command self = None →
  callbacks (Register self name callback kwargs).2
    !! command (Register self name callback kwargs).2 = None
  ∧ command (Register self name callback kwargs).2 = command self.
Proof.
  intros Hfree.
  assert (command (Register self name callback kwargs).2 = command self)
    as Hsame.
  { unfold Register.
    destruct (negb (callable callback)); [done|].
    destruct (String.eqb name (command self)); [done|].
    destruct (already_registered self name); [done|].
    destruct (parsers_add_parser _ _ _) as [e|[p tree1]]; [done|].
    by destruct (add_argument _ _ _). }
  split; [|done]. rewrite Hsame.
  destruct (Register_callbacks_cases self name callback kwargs)
    as [->|(_ & Hname & ->)]; [done|].
  by rewrite lookup_insert_ne.
Qed.

End RegistryMore.

(** X2 at a registry holding [status], asked to register [status]
    again with another handler. *)
Lemma Register_never_overwrites_witness :
  Callbacks.callbacks
    (Callbacks.Register
       (Callbacks.Register attached "status" status_handler []).2
       "status" other_handler []).2 !! "status"
  = Some status_handler.
Proof.
  apply (Register_never_overwrites
           (Callbacks.Register attached "status" status_handler []).2
           "status" other_handler [] "status" status_handler).
  reflexivity.
Defined.

(** X3 at a fresh registry asked to register its own primary command. *)
Lemma Register_never_stores_command_witness :
  Callbacks.callbacks
    (Callbacks.Register attached "run" status_handler []).2
    !! Callbacks.command (Callbacks.Register attached "run" status_handler []).2
  = None
  ∧ Callbacks.command (Callbacks.Register attached "run" status_handler []).2
    = Callbacks.command attached.
Proof.
  apply (Register_never_stores_command attached "run" status_handler []).
  reflexivity.
Defined.

(** On the sample collection: without [add_help] the new parser holds
    [--config] alone; with [+] as its prefix character it holds
    [--config] as a positional argument. *)
Example Register_without_help :
  Callbacks.parsers
    (Callbacks.Register attached "status" status_handler
       [("add_help", PyBool false)]).2
  = Some [("status",
           {| Argparse.options := [("add_help", PyBool false)];
              Argparse.prefix_chars := "-";
              Argparse.option_strings := ["--config"];
              Argparse.positionals := [] |})].
Proof. reflexivity. Qed.

Example Register_with_plus_prefix :
  Callbacks.parsers
    (Callbacks.Register attached "status" status_handler
       [("prefix_chars", PyStr "+")]).2
  = Some [("status",
           {| Argparse.options := [("prefix_chars", PyStr "+")];
              Argparse.prefix_chars := "+";
              Argparse.option_strings := ["+h"; "++help"];
              Argparse.positionals := ["--config"] |})].
Proof. reflexivity. Qed.

(** ** More on the process runner *)

Section CommandMore.
Import Command.
Implicit Types (o : os) (w : world) (p : popen).

Local Arguments drain : simpl never.
Local Arguments wait_loop : simpl never.





(** X5.  On an uninterrupted run with the merge flag set, when the
    first [poll()] finds the child still running, [Command] returns
    the child's exit status and all the stripped non-empty lines of
    what it wrote on both streams, in the order written. *)
Theorem Command_returns_all_lines prog command cwd n :
  polls_while_running prog = S n →
  fst <$> Command (machine prog None) command true cwd
  = Some (Return (Some (exit_status prog),
                  kept (lines (captured ToStdout prog)))).
Proof. apply Command_collects. Qed.

(** X6.  On an uninterrupted run, when the child has already exited at
    the first [poll()], [Command] returns its exit status with an
    empty list, whatever the child wrote: the pipe is never read. *)
Theorem Command_returns_nothing_of_exited_child prog command cwd :
  polls_while_running prog = O →
  fst <$> Command (machine prog None) command true cwd
  = Some (Return (Some (exit_status prog), [])).
Proof. apply Command_drops_output_of_exited_child. Qed.

End CommandMore.

(** ** More on the readiness waiter *)

Section SelectMore.
Import Select.
Implicit Types (o : os) (w : world).

Local Arguments poll_loop : simpl never.

(** X7.  Whatever the machine does, [Select] ends, and the number of
    waits it has made is bounded by the timeout and by what the wall
    clock was set back during the call: fewer than
    [(max timeout 0 + lost_in_all) / slice + 1]; none, then, when the
    timeout is zero or negative and the clock is left alone. *)
Theorem Select_wait_bound o rds wrts timeout logger :
  ∃ r w, Select o rds wrts timeout logger = Some (r, w)
         ∧ Z.of_nat (polls w) * slice
           < Z.max timeout 0 + lost_in_all o + slice.
Proof.
  destruct (Select_guarantees o rds wrts timeout logger)
    as (r & w & Hrun & _ & Hbound & _).
  eauto.
Qed.





End SelectMore.





(** X5 at [echo hello], found running twice. *)
Lemma Command_returns_all_lines_witness :
  fst <$> Command.Command (Command.machine (Command.echo_hello 2) None)
            ["echo"; "hello"] true None
  = Some (Return (Some 0, [Command.b "hello"])).
Proof.
  apply (Command_returns_all_lines (Command.echo_hello 2)
           ["echo"; "hello"] None 1).
  reflexivity.
Defined.

(** X6 at [echo hello], gone before the first [poll()]. *)
Lemma Command_returns_nothing_of_exited_child_witness :
  fst <$> Command.Command (Command.machine (Command.echo_hello 0) None)
            ["echo"; "hello"] true None
  = Some (Return (Some 0, [])).
Proof.
  apply (Command_returns_nothing_of_exited_child (Command.echo_hello 0)
           ["echo"; "hello"] None).
  reflexivity.
Defined.

(** ** Descriptors *)

Section DescriptorFacts.
Import Descriptors.
Implicit Types (w : world) (fd : arg).

Lemma sys_close_gone z w :
  fds (sys_close z w).2 !! z = None
  ∧ fds (sys_close z w).2 = delete z (fds w)
  ∧ files (sys_close z w).2 = files w
  ∧ objects (sys_close z w).2 = objects w.
Proof.
  unfold sys_close. destruct (fds w !! z) eqn:Hz; simpl.
  - by rewrite lookup_delete_eq.
  - by rewrite delete_id.
Qed.

Lemma sys_close_result z w :
  (sys_close z w).1 = Ok tt
  ∨ (sys_close z w).1 = Err (OSError EBADF).
Proof. unfold sys_close. destruct (fds w !! z); auto. Qed.

(** X11.  [CloseDescriptor] on an integer descriptor never raises,
    whether the descriptor is open or not: afterwards the descriptor
    is not in the table, and the rest of the table, the open file
    descriptions and the file objects are as they were. *)
Theorem CloseDescriptor_releases_descriptor z w :
  -2147483648 ≤ z ≤ 2147483647 →
  (CloseDescriptor (Value (PyInt z)) w).1 = Ok tt
  ∧ fds (CloseDescriptor (Value (PyInt z)) w).2 = delete z (fds w)
  ∧ files (CloseDescriptor (Value (PyInt z)) w).2 = files w
  ∧ objects (CloseDescriptor (Value (PyInt z)) w).2 = objects w.
Proof.
  intros Hrange. unfold CloseDescriptor, os_close, as_c_int.
  destruct (Z.ltb_spec z (-2147483648)); [lia|].
  destruct (Z.ltb_spec 2147483647 z); [lia|]. simpl.
  destruct (sys_close_gone z w) as (_ & Hfds & Hfiles & Hobjects).
  destruct (sys_close z w) as [r w'] eqn:Hclose. simpl in *.
  pose proof (sys_close_result z w) as Hr. rewrite Hclose in Hr.
  simpl in Hr. destruct Hr as [-> | ->]; simpl; auto.
Qed.

(** X12.  [CloseDescriptor] on an open file object never raises, also
    when the object's descriptor has been closed behind its back: the
    object is closed afterwards, its descriptor is not in the table,
    and nothing else changes. *)
Theorem CloseDescriptor_closes_object ref ob w :
  objects w !! ref = Some ob →
  closed ob = false →
  (CloseDescriptor (Object ref) w).1 = Ok tt
  ∧ (closed <$> objects (CloseDescriptor (Object ref) w).2 !! ref) = Some true
  ∧ fds (CloseDescriptor (Object ref) w).2 = delete (fileno ob) (fds w)
  ∧ files (CloseDescriptor (Object ref) w).2 = files w
  ∧ ∀ ref', ref' ≠ ref →
      objects (CloseDescriptor (Object ref) w).2 !! ref' = objects w !! ref'.
Proof.
  intros Hob Hopen. unfold CloseDescriptor, object_close.
  rewrite Hob, Hopen.
  match goal with
  | |- context [sys_close ?z ?w1] =>
      destruct (sys_close_gone z w1) as (_ & Hfds & Hfiles & Hobjects);
      pose proof (sys_close_result z w1) as Hr;
      destruct (sys_close z w1) as [r w'] eqn:Hclose
  end.
  simpl in *.
  assert ((if r is Err e
           then if is_OSError e then (Ok tt, w') else (Err e, w')
           else (Ok tt, w')) = (Ok tt, w')) as ->
    by (destruct Hr as [-> | ->]; reflexivity).
  simpl. rewrite Hfds, Hfiles, Hobjects.
  split; [done|]. split; [by rewrite lookup_insert_eq|].
  split; [done|]. split; [done|].
  intros ref' Hne. by rewrite lookup_insert_ne.
Qed.

(** X13.  Calling [CloseDescriptor] a second time on the same
    argument changes nothing and ends as the first call did. *)
Theorem CloseDescriptor_twice fd w :
  CloseDescriptor fd (CloseDescriptor fd w).2 = CloseDescriptor fd w.
Proof.
  unfold CloseDescriptor. destruct fd as [x|ref].
  - unfold os_close. destruct (as_c_int x) as [z|e]; simpl.
    + unfold sys_close. destruct (fds w !! z) eqn:Hz; simpl.
      * by rewrite lookup_delete_eq.
      * by rewrite Hz.
    + by destruct (is_OSError e).
  - unfold object_close.
    destruct (objects w !! ref) as [ob|] eqn:Hob; simpl; [|by rewrite Hob].
    destruct (closed ob) eqn:Hc; simpl; [by rewrite Hob, Hc|].
    unfold sys_close. simpl.
    destruct (fds w !! fileno ob); simpl; by rewrite lookup_insert_eq.
Qed.

(** X14.  What [CloseDescriptor] does raise: only the conversion
    error of a value that is neither a file object nor an integer of
    C [int] range ([TypeError], [OverflowError]); never an [OSError];
    and then nothing has changed. *)
Theorem CloseDescriptor_raises_only_for_non_descriptors fd w e :
  (CloseDescriptor fd w).1 = Err e →
  (∃ x, fd = Value x ∧ as_c_int x = Err e)
  ∧ is_OSError e = false
  ∧ (CloseDescriptor fd w).2 = w.
Proof.
  unfold CloseDescriptor. destruct fd as [x|ref].
  - unfold os_close. destruct (as_c_int x) as [z|e'] eqn:Hx; simpl.
    + pose proof (sys_close_result z w) as Hr.
      destruct (sys_close z w) as [r w']. simpl in Hr.
      by destruct Hr as [-> | ->].
    + destruct (is_OSError e') eqn:He; [discriminate|].
      simpl. intros [= <-]. eauto.
  - unfold object_close.
    destruct (objects w !! ref) as [ob|]; [|discriminate].
    destruct (closed ob); [discriminate|].
    match goal with
    | |- context [sys_close ?z ?w1] =>
        pose proof (sys_close_result z w1) as Hr;
        destruct (sys_close z w1) as [r w']
    end.
    simpl in Hr. by destruct Hr as [-> | ->].
Qed.

(** Setting [fl | O_NONBLOCK] with [F_SETFL], where [fl] is what
    [F_GETFL] gave, adds the one flag. *)
Lemma setfl_nonblock f :
  Z.lor (Z.land f (Z.lnot settable)) (Z.land (Z.lor f O_NONBLOCK) settable)
  = Z.lor f O_NONBLOCK.
Proof.
  apply Z.bits_inj'. intros n Hn. unfold settable.
  rewrite !Z.lor_spec, !Z.land_spec, Z.lnot_spec, !Z.lor_spec by done.
  destruct (Z.testbit f n), (Z.testbit O_NONBLOCK n), (Z.testbit O_APPEND n),
    (Z.testbit O_ASYNC n), (Z.testbit O_DIRECT n), (Z.testbit O_NOATIME n);
    reflexivity.
Qed.

Lemma fcntl_getfl_described fd w z d desc :
  as_descriptor fd w = Ok z →
  fds w !! z = Some d → files w !! d = Some desc →
  fcntl_getfl fd w = Ok (flags desc).
Proof.
  intros Hfd Hz Hd. unfold fcntl_getfl, described. by rewrite Hfd, Hz, Hd.
Qed.

Lemma SetNonBlocking_posix fd w z d desc :
  as_descriptor fd w = Ok z →
  fds w !! z = Some d → files w !! d = Some desc →
  SetNonBlocking posix fd w
  = (Ok tt,
     with_files
       (<[d := {| path := path desc;
                  flags := Z.lor (flags desc) O_NONBLOCK |}]> (files w)) w).
Proof.
  intros Hfd Hz Hd. unfold SetNonBlocking.
  rewrite (fcntl_getfl_described _ _ _ _ _ Hfd Hz Hd).
  unfold fcntl_setfl, described. rewrite Hfd, Hz, Hd.
  by rewrite setfl_nonblock.
Qed.

Lemma SetNonBlocking_posix_cases fd w :
  (∃ z d desc, as_descriptor fd w = Ok z
               ∧ fds w !! z = Some d ∧ files w !! d = Some desc)
  ∨ (∃ e, SetNonBlocking posix fd w = (Err e, w)).
Proof.
  unfold SetNonBlocking, fcntl_getfl, described.
  destruct (as_descriptor fd w) as [z|e] eqn:Hfd; [|right; eauto].
  destruct (fds w !! z) as [d|] eqn:Hz; [|right; eauto].
  destruct (files w !! d) as [desc|] eqn:Hd; [left|right; eauto].
  exists z, d, desc. auto.
Qed.

(** X15.  On a POSIX host, [SetNonBlocking] on an open descriptor
    returns normally and replaces the flag word of its open file
    description by the old word with [O_NONBLOCK] set: bit 11 is set,
    every other bit is as before, and nothing else in the process
    changes. *)
Theorem SetNonBlocking_sets_the_flag fd w z d desc :
  as_descriptor fd w = Ok z →
  fds w !! z = Some d →
  files w !! d = Some desc →
  SetNonBlocking posix fd w
  = (Ok tt,
     with_files
       (<[d := {| path := path desc;
                  flags := Z.lor (flags desc) O_NONBLOCK |}]> (files w)) w)
  ∧ Z.testbit (Z.lor (flags desc) O_NONBLOCK) 11 = true
  ∧ ∀ i, i ≠ 11 →
         Z.testbit (Z.lor (flags desc) O_NONBLOCK) i = Z.testbit (flags desc) i.
Proof.
  intros Hfd Hz Hd. split; [by apply (SetNonBlocking_posix fd w z d desc)|].
  change O_NONBLOCK with (2 ^ 11). split.
  - rewrite Z.lor_spec, Z.pow2_bits_eqb by lia.
    apply orb_true_r.
  - intros i Hi. rewrite Z.lor_spec, Z.pow2_bits_eqb by lia.
    destruct (Z.eqb_spec 11 i); [congruence|]. apply orb_false_r.
Qed.

(** X16.  [SetNonBlocking] is idempotent on every platform: a second
    call on the same argument leaves the process as the first call
    left it and ends the same way. *)
Theorem SetNonBlocking_twice name fd w :
  SetNonBlocking name fd (SetNonBlocking name fd w).2
  = SetNonBlocking name fd w.
Proof.
  destruct name; [| |reflexivity].
  - destruct (SetNonBlocking_posix_cases fd w)
      as [(z & d & desc & Hfd & Hz & Hd)|[e He]]; [|by rewrite He].
    rewrite (SetNonBlocking_posix fd w z d desc Hfd Hz Hd). cbn [snd].
    rewrite (SetNonBlocking_posix fd _ z d
               {| path := path desc;
                  flags := Z.lor (flags desc) O_NONBLOCK |}).
    + unfold with_files. simpl. rewrite insert_insert_eq.
      by rewrite <- Z.lor_assoc, Z.lor_diag.
    + destruct fd; exact Hfd.
    + exact Hz.
    + apply lookup_insert_eq.
  - unfold SetNonBlocking, object_setblocking_false.
    destruct fd as [x|ref]; [reflexivity|].
    destruct (objects w !! ref) as [ob|] eqn:Hob; simpl; [|by rewrite Hob].
    destruct (sort ob) eqn:Hsort; simpl; [by rewrite Hob, Hsort|].
    destruct (closed ob) eqn:Hc; simpl; [by rewrite Hob, Hsort, Hc|].
    rewrite lookup_insert_eq. simpl.
    unfold with_objects. simpl. by rewrite insert_insert_eq.
Qed.

(** X17.  [SetNonBlocking] has no clause for errors: a descriptor that
    is not open makes it raise [OSError] (where [CloseDescriptor]
    returns normally), and whenever it raises, on any platform, the
    process is left untouched. *)
Theorem SetNonBlocking_raises_untouched name fd w :
  (∀ e, (SetNonBlocking name fd w).1 = Err e →
        (SetNonBlocking name fd w).2 = w)
  ∧ (∀ z, 0 ≤ z ≤ 2147483647 → fds w !! z = None →
          SetNonBlocking posix (Value (PyInt z)) w
          = (Err (OSError EBADF), w)).
Proof.
  split.
  - intros e. destruct name; [| |discriminate].
    + unfold SetNonBlocking.
      destruct (fcntl_getfl fd w) as [fl|e']; [|done].
      unfold fcntl_setfl.
      destruct (as_descriptor fd w) as [z|e']; [|done].
      destruct (described z w) as [[d desc]|]; [discriminate|done].
    + unfold SetNonBlocking, object_setblocking_false.
      destruct fd as [x|ref]; [done|].
      destruct (objects w !! ref) as [ob|]; [|done].
      destruct (sort ob); [done|]. destruct (closed ob); [done|discriminate].
  - intros z Hz Hclosed.
    unfold SetNonBlocking, fcntl_getfl, as_descriptor, as_c_int, described.
    simpl.
    destruct (Z.ltb_spec z (-2147483648)); [lia|].
    destruct (Z.ltb_spec 2147483647 z); [lia|]. simpl.
    destruct (Z.ltb_spec z 0); [lia|]. by rewrite Hclosed.
Qed.

Lemma first_free_ge t n :
  ∀ lo : Z, lo ≤ first_free t n lo ≤ lo + Z.of_nat n.
Proof.
  induction n as [|n IH]; intros lo; simpl; [lia|].
  destruct (t !! lo); [|lia]. specialize (IH (lo + 1)). lia.
Qed.

Lemma first_free_unused (t : gmap Z nat) n :
  ∀ lo : Z, (size (filter (λ kv : Z * nat, (lo ≤ kv.1)%Z) t) ≤ n)%nat →
        t !! first_free t n lo = None.
Proof.
  induction n as [|n IH]; intros lo Hsize; simpl.
  - destruct (t !! lo) as [d|] eqn:Hlo; [|done].
    assert (filter (λ kv : Z * nat, lo ≤ kv.1) t = ∅) as Hempty
      by (apply map_size_empty_inv; lia).
    assert (filter (λ kv : Z * nat, lo ≤ kv.1) t !! lo = Some d) as Hin
      by (apply map_lookup_filter_Some_2; simpl; [done|lia]).
    by rewrite Hempty, lookup_empty in Hin.
  - destruct (t !! lo) as [d|] eqn:Hlo; [|done].
    apply IH.
    assert (filter (λ kv : Z * nat, lo ≤ kv.1) t !! lo = Some d) as Hin
      by (apply map_lookup_filter_Some_2; simpl; [done|lia]).
    pose proof (map_size_delete_Some lo _ (mk_is_Some _ _ Hin)) as Hdel.
    assert (filter (λ kv : Z * nat, lo + 1 ≤ kv.1) t
            ⊆ delete lo (filter (λ kv : Z * nat, lo ≤ kv.1) t)) as Hsub.
    { apply map_subseteq_spec. intros i x Hix.
      apply map_lookup_filter_Some in Hix as [Hix Hle]. simpl in Hle.
      rewrite lookup_delete_ne by lia.
      apply map_lookup_filter_Some_2; simpl; [done|lia]. }
    apply map_subseteq_size in Hsub. lia.
Qed.

(** The descriptor [os.open] hands out is not in use. *)
Lemma lowest_free_unused (t : gmap Z nat) :
  t !! lowest_free t = None ∧ 0 ≤ lowest_free t ≤ Z.of_nat (size t).
Proof.
  split.
  - apply first_free_unused, map_subseteq_size, map_filter_subseteq.
  - apply (first_free_ge t (size t) 0).
Qed.

Lemma os_dup2_ok old new d w :
  0 ≤ old ≤ 2147483647 → 0 ≤ new ≤ 2147483647 →
  fds w !! old = Some d →
  os_dup2 old new w = (Ok tt, with_fds (<[new := d]> (fds w)) w).
Proof.
  intros Hold Hnew Hd. unfold os_dup2.
  destruct (Z.ltb_spec old (-2147483648)); [lia|].
  destruct (Z.ltb_spec 2147483647 old); [lia|].
  destruct (Z.ltb_spec new (-2147483648)); [lia|].
  destruct (Z.ltb_spec 2147483647 new); [lia|].
  destruct (Z.ltb_spec old 0); [lia|].
  destruct (Z.ltb_spec new 0); [lia|].
  simpl. by rewrite Hd.
Qed.

(** X18.  On a POSIX host, [RedirectStream(source)] with no target
    opens the null device on a descriptor that was free and makes the
    source's descriptor a duplicate of it.  The descriptor it opened
    is never closed: it stays in the table after the call. *)
Theorem RedirectStream_to_null_device ref ob w :
  open_error w = None →
  objects w !! ref = Some ob →
  closed ob = false →
  0 ≤ fileno ob ≤ 2147483647 →
  Z.of_nat (size (fds w)) ≤ 2147483647 →
  ∃ n d,
    fds w !! n = None
    ∧ files w !! d = None
    ∧ RedirectStream posix (Object ref) None w
      = (Ok tt,
         {| fds := <[fileno ob := d]> (<[n := d]> (fds w));
            files := <[d := {| path := devnull; flags := O_RDWR |}]> (files w);
            objects := objects w;
            open_error := None |}).
Proof.
  intros Hopen Hob Hc Hfd Hsize.
  destruct (lowest_free_unused (fds w)) as [Hfree Hlow].
  exists (lowest_free (fds w)), (fresh (dom (files w))).
  split; [exact Hfree|]. split.
  { apply not_elem_of_dom, is_fresh. }
  unfold RedirectStream, os_open. rewrite Hopen.
  unfold object_fileno. simpl. rewrite Hob, Hc.
  rewrite (os_dup2_ok _ _ (fresh (dom (files w)))); simpl.
  - unfold with_fds, with_files. simpl. by rewrite Hopen.
  - lia.
  - exact Hfd.
  - apply lookup_insert_eq.
Qed.

(** X19.  The null device is opened before the source is asked for
    its descriptor: when the source is a value without [fileno()] (an
    integer descriptor, say) and no target is given, the call raises
    [AttributeError] and leaves one more descriptor open than it
    found. *)
Theorem RedirectStream_leaks_on_bad_source x w :
  open_error w = None →
  ∃ n d msg,
    fds w !! n = None
    ∧ RedirectStream posix (Value x) None w
      = (Err (AttributeError msg),
         {| fds := <[n := d]> (fds w);
            files := <[d := {| path := devnull; flags := O_RDWR |}]> (files w);
            objects := objects w;
            open_error := None |}).
Proof.
  intros Hopen.
  destruct (lowest_free_unused (fds w)) as [Hfree _].
  exists (lowest_free (fds w)), (fresh (dom (files w))). eexists.
  split; [exact Hfree|].
  unfold RedirectStream, os_open. rewrite Hopen. simpl.
  unfold with_fds, with_files. simpl. by rewrite Hopen.
Qed.

(** X20.  A redirected stream shares the open file description of its
    target, flags included: after [RedirectStream(source, target)] on
    a POSIX host, [SetNonBlocking(source)] makes the target
    non-blocking as well. *)
Theorem SetNonBlocking_after_RedirectStream rs rt obs obt d desc w :
  objects w !! rs = Some obs → closed obs = false →
  objects w !! rt = Some obt → closed obt = false →
  0 ≤ fileno obs ≤ 2147483647 →
  0 ≤ fileno obt ≤ 2147483647 →
  fds w !! fileno obt = Some d →
  files w !! d = Some desc →
  (RedirectStream posix (Object rs) (Some (Object rt)) w).1 = Ok tt
  ∧ fcntl_getfl (Object rt)
      (SetNonBlocking posix (Object rs)
         (RedirectStream posix (Object rs) (Some (Object rt)) w).2).2
    = Ok (Z.lor (flags desc) O_NONBLOCK).
Proof.
  intros Hs Hsc Ht Htc Hsfd Htfd Hd Hdesc.
  assert (RedirectStream posix (Object rs) (Some (Object rt)) w
          = (Ok tt, with_fds (<[fileno obs := d]> (fds w)) w)) as ->.
  { unfold RedirectStream, object_fileno. rewrite Ht, Htc, Hs, Hsc.
    by apply os_dup2_ok. }
  split; [reflexivity|]. cbn [snd].
  assert (∀ w', objects w' = objects w →
                as_descriptor (Object rs) w' = Ok (fileno obs)
                ∧ as_descriptor (Object rt) w' = Ok (fileno obt)) as Hdescr.
  { intros w' Hw'. unfold as_descriptor, object_fileno.
    rewrite Hw', Hs, Hsc, Ht, Htc.
    destruct (Z.ltb_spec (fileno obs) 0); [lia|].
    by destruct (Z.ltb_spec (fileno obt) 0); [lia|]. }
  rewrite (SetNonBlocking_posix (Object rs) _ (fileno obs) d desc).
  - cbn [snd].
    apply (fcntl_getfl_described _ _ (fileno obt) d
             {| path := path desc;
                flags := Z.lor (flags desc) O_NONBLOCK |}).
    + by apply Hdescr.
    + simpl. destruct (decide (fileno obs = fileno obt)) as [->|Hne].
      * apply lookup_insert_eq.
      * by rewrite lookup_insert_ne.
    + simpl. apply lookup_insert_eq.
  - by apply Hdescr.
  - simpl. apply lookup_insert_eq.
  - exact Hdesc.
Qed.

End DescriptorFacts.

(** X11 at descriptor 7, which is not open. *)
Lemma CloseDescriptor_releases_descriptor_witness :
  (Descriptors.CloseDescriptor (Descriptors.Value (PyInt 7)) bare).1 = Ok tt
  ∧ Descriptors.fds
      (Descriptors.CloseDescriptor (Descriptors.Value (PyInt 7)) bare).2
    = delete 7 (Descriptors.fds bare)
  ∧ Descriptors.files
      (Descriptors.CloseDescriptor (Descriptors.Value (PyInt 7)) bare).2
    = Descriptors.files bare
  ∧ Descriptors.objects
      (Descriptors.CloseDescriptor (Descriptors.Value (PyInt 7)) bare).2
    = Descriptors.objects bare.
Proof.
  apply (CloseDescriptor_releases_descriptor 7 bare). lia.
Defined.

(** X12 at the object that wraps standard output. *)
Lemma CloseDescriptor_closes_object_witness :
  (Descriptors.CloseDescriptor (Descriptors.Object 1) bare).1 = Ok tt.
Proof.
  apply (CloseDescriptor_closes_object 1 stdout_object bare);
    reflexivity.
Defined.

(** X14 at [None]. *)
Lemma CloseDescriptor_raises_only_for_non_descriptors_witness :
  (Descriptors.CloseDescriptor (Descriptors.Value PyNone) bare).2 = bare.
Proof.
  apply (CloseDescriptor_raises_only_for_non_descriptors
           (Descriptors.Value PyNone) bare
           (TypeError
                       "'NoneType' object cannot be interpreted as an integer")).
  reflexivity.
Defined.

(** X15 at standard output. *)
Lemma SetNonBlocking_sets_the_flag_witness :
  Z.testbit (Z.lor (Descriptors.flags terminal) Descriptors.O_NONBLOCK) 11
  = true.
Proof.
  apply (SetNonBlocking_sets_the_flag (Descriptors.Object 1) bare 1 0%nat
           terminal); reflexivity.
Defined.

(** X18 at standard output. *)
Lemma RedirectStream_to_null_device_witness :
  ∃ n d,
    Descriptors.fds bare !! n = None
    ∧ Descriptors.files bare !! d = None
    ∧ Descriptors.RedirectStream posix (Descriptors.Object 1) None bare
      = (Ok tt,
         {| Descriptors.fds :=
              <[Descriptors.fileno stdout_object := d]>
                (<[n := d]> (Descriptors.fds bare));
            Descriptors.files :=
              <[d := {| Descriptors.path := Descriptors.devnull;
                        Descriptors.flags := Descriptors.O_RDWR |}]>
                (Descriptors.files bare);
            Descriptors.objects := Descriptors.objects bare;
            Descriptors.open_error := None |}).
Proof.
  apply (RedirectStream_to_null_device 1 stdout_object bare);
    try reflexivity; simpl; try lia.
  vm_compute. discriminate.
Defined.

(** X19 at the integer 1 given as source. *)
Lemma RedirectStream_leaks_on_bad_source_witness :
  ∃ n d msg,
    Descriptors.fds bare !! n = None
    ∧ Descriptors.RedirectStream posix (Descriptors.Value (PyInt 1)) None bare
      = (Err (AttributeError msg),
         {| Descriptors.fds := <[n := d]> (Descriptors.fds bare);
            Descriptors.files :=
              <[d := {| Descriptors.path := Descriptors.devnull;
                        Descriptors.flags := Descriptors.O_RDWR |}]>
                (Descriptors.files bare);
            Descriptors.objects := Descriptors.objects bare;
            Descriptors.open_error := None |}).
Proof.
  apply (RedirectStream_leaks_on_bad_source (PyInt 1) bare). reflexivity.
Defined.

(** X20 at standard output redirected into the log file. *)
Lemma SetNonBlocking_after_RedirectStream_witness :
  (Descriptors.RedirectStream posix (Descriptors.Object 1)
     (Some (Descriptors.Object 3)) bare).1 = Ok tt
  ∧ Descriptors.fcntl_getfl (Descriptors.Object 3)
      (Descriptors.SetNonBlocking posix (Descriptors.Object 1)
         (Descriptors.RedirectStream posix (Descriptors.Object 1)
            (Some (Descriptors.Object 3)) bare).2).2
    = Ok (Z.lor (Descriptors.flags log_file) Descriptors.O_NONBLOCK).
Proof.
  apply (SetNonBlocking_after_RedirectStream 1 3 stdout_object log_object
           1%nat log_file bare); try reflexivity; simpl; lia.
Defined.

(** ** Identities and privileges *)

Section PrivilegeFacts.
Import Identity Privilege.
Implicit Types (h : host) (w : world).

(** X21.  [GetUserId] and [GetGroupId] hand an integer back as it is,
    on any host and whatever the databases hold.  Off POSIX they
    answer [None] to anything else.  On POSIX a name the host can
    encode, with no null byte, is answered with the identifier the
    database holds for it, and with [None] when it holds none: no
    exception; a name the host cannot encode raises
    [UnicodeEncodeError], which the [except KeyError] clause does not
    catch. *)
Theorem identifiers_resolve h :
  (∀ x, is_int x = true →
        GetUserId h x = Ok x ∧ GetGroupId h x = Ok x)
  ∧ (∀ x, is_int x = false → name h ≠ posix →
          GetUserId h x = Ok PyNone ∧ GetGroupId h x = Ok PyNone)
  ∧ (∀ s encoded, name h = posix →
        fsencode h s = Some encoded → has_nul encoded = false →
        GetUserId h (PyStr s)
        = Ok (match users h !! encoded with
              | Some uid => PyInt uid
              | None => PyNone
              end)
        ∧ GetGroupId h (PyStr s)
          = Ok (match groups h !! encoded with
                | Some gid => PyInt gid
                | None => PyNone
                end))
  ∧ (∀ s, name h = posix → fsencode h s = None →
          ∃ msg, GetUserId h (PyStr s) = Err (UnicodeEncodeError msg)
                 ∧ GetGroupId h (PyStr s) = Err (UnicodeEncodeError msg)).
Proof.
  split; [|split; [|split]].
  - intros x Hx. unfold GetUserId, GetGroupId. by rewrite Hx.
  - intros x Hx Hname. unfold GetUserId, GetGroupId. rewrite Hx.
    by destruct (name h).
  - intros s encoded Hname Henc Hnul.
    unfold GetUserId, GetGroupId, getnam. simpl.
    rewrite Hname, Henc, Hnul.
    by destruct (users h !! encoded), (groups h !! encoded).
  - intros s Hname Henc. eexists.
    unfold GetUserId, GetGroupId, getnam. simpl.
    by rewrite Hname, Henc.
Qed.

(** On the sample host: a lone surrogate cannot be encoded, and an
    escaped byte is looked up as that byte. *)
Example GetUserId_lone_surrogate :
  GetUserId server (PyStr lone_surrogate)
  = Err (UnicodeEncodeError "surrogates not allowed").
Proof. reflexivity. Qed.

Example GetUserId_escaped_byte :
  fsencode server escaped_byte
  = Some (String (Ascii.ascii_of_nat 128) EmptyString)
  ∧ GetUserId server (PyStr escaped_byte) = Ok PyNone.
Proof. split; reflexivity. Qed.

(** X22.  [SetProcessOwner] changes the user before the group.  Run
    by root with a user other than root and a group the process does
    not already have, it changes the three user identifiers, after
    which the kernel refuses the change of group: the call returns
    normally, the group identifiers are the old ones, and the refusal
    is logged (if there is a logger). *)
Theorem SetProcessOwner_as_root_keeps_group u g logger w :
  euid (creds w) = 0 →
  0 < u < 4294967295 →
  0 ≤ g < 4294967295 →
  g ≠ rgid (creds w) →
  g ≠ sgid (creds w) →
  SetProcessOwner posix (PyInt u) (PyInt g) logger w
  = (Ok tt,
     {| creds := {| ruid := u; euid := u; suid := u;
                    rgid := rgid (creds w); egid := egid (creds w);
                    sgid := sgid (creds w) |};
        mask := mask w;
        log := log w ++ (if logger then [group_failed (PyInt g) EPERM]
                         else []) |}).
Proof.
  intros Hroot Hu Hg Hrgid Hsgid.
  unfold SetProcessOwner, attempt, as_id, sys_setuid, sys_setgid.
  destruct (Z.ltb_spec u (-1)); [lia|].
  destruct (Z.ltb_spec 4294967295 u); [lia|].
  destruct (Z.ltb_spec g (-1)); [lia|].
  destruct (Z.ltb_spec 4294967295 g); [lia|]. simpl.
  destruct (Z.eqb_spec u (-1)); [lia|].
  destruct (Z.eqb_spec u 4294967295); [lia|]. simpl.
  rewrite Hroot. simpl.
  destruct (Z.eqb_spec g (-1)); [lia|].
  destruct (Z.eqb_spec g 4294967295); [lia|]. simpl.
  destruct (Z.eqb_spec u 0); [lia|].
  destruct (Z.eqb_spec g (rgid (creds w))); [done|].
  destruct (Z.eqb_spec g (sgid (creds w))); [done|]. simpl.
  unfold tell. destruct logger; simpl; [done|].
  by rewrite app_nil_r; destruct w.
Qed.

(** X23.  The other order works: root changing the group in one call
    and the user in a second call ends with both changed and nothing
    logged. *)
Theorem SetProcessOwner_group_then_user u g logger w :
  euid (creds w) = 0 →
  0 ≤ u < 4294967295 →
  0 ≤ g < 4294967295 →
  SetProcessOwner posix (PyInt u) PyNone logger
    (SetProcessOwner posix PyNone (PyInt g) logger w).2
  = (Ok tt,
     {| creds := {| ruid := u; euid := u; suid := u;
                    rgid := g; egid := g; sgid := g |};
        mask := mask w;
        log := log w |}).
Proof.
  intros Hroot Hu Hg.
  unfold SetProcessOwner, attempt, as_id, sys_setuid, sys_setgid.
  destruct (Z.ltb_spec u (-1)); [lia|].
  destruct (Z.ltb_spec 4294967295 u); [lia|].
  destruct (Z.ltb_spec g (-1)); [lia|].
  destruct (Z.ltb_spec 4294967295 g); [lia|]. simpl.
  destruct (Z.eqb_spec g (-1)); [lia|].
  destruct (Z.eqb_spec g 4294967295); [lia|]. simpl.
  rewrite Hroot. simpl.
  destruct (Z.eqb_spec u (-1)); [lia|].
  destruct (Z.eqb_spec u 4294967295); [lia|]. simpl.
  reflexivity.
Qed.

Lemma attempt_returns what sys failed x logger w :
  acceptable x →
  (attempt what sys failed x logger w).1 = Ok tt
  ∧ mask (attempt what sys failed x logger w).2 = mask w
  ∧ (logger = false → log (attempt what sys failed x logger w).2 = log w).
Proof.
  intros Hx. unfold attempt, as_id, tell.
  destruct x as [|flag|z|s|f]; simpl in Hx; try done.
  - destruct (sys _ (creds w)); simpl; [|done].
    split; [done|]. by split; [destruct logger|intros ->].
  - destruct (Z.ltb_spec z (-1)); [lia|].
    destruct (Z.ltb_spec 4294967295 z); [lia|]. simpl.
    destruct (sys z (creds w)); simpl; [|done].
    split; [done|]. by split; [destruct logger|intros ->].
Qed.

(** X24.  Given identifiers of the right range (or [None]),
    [SetProcessOwner] never raises, whatever the kernel answers, on
    any platform and with any credentials; it never touches the umask,
    and without a logger it leaves no trace of a refusal. *)
Theorem SetProcessOwner_never_raises name user group logger w :
  acceptable user →
  acceptable group →
  (SetProcessOwner name user group logger w).1 = Ok tt
  ∧ mask (SetProcessOwner name user group logger w).2 = mask w
  ∧ (logger = false →
     log (SetProcessOwner name user group logger w).2 = log w).
Proof.
  intros Huser Hgroup. destruct name; [|done..].
  unfold SetProcessOwner.
  destruct (attempt_returns "uid" sys_setuid user_failed user logger w Huser)
    as (Hr1 & Hm1 & Hl1).
  destruct (attempt "uid" sys_setuid user_failed user logger w)
    as [r1 w1]. simpl in Hr1, Hm1, Hl1. subst r1.
  destruct (attempt_returns "gid" sys_setgid group_failed group logger w1
              Hgroup) as (Hr2 & Hm2 & Hl2).
  split; [done|]. split; [congruence|].
  intros Hlog. rewrite Hl2, Hl1; done.
Qed.

(** X25.  A process that is not privileged and asks for a user and a
    group that are not its own changes nothing; both refusals are
    logged, the user's first. *)
Theorem SetProcessOwner_unprivileged u g w :
  euid (creds w) ≠ 0 →
  0 ≤ u < 4294967295 → u ≠ ruid (creds w) → u ≠ suid (creds w) →
  0 ≤ g < 4294967295 → g ≠ rgid (creds w) → g ≠ sgid (creds w) →
  SetProcessOwner posix (PyInt u) (PyInt g) true w
  = (Ok tt,
     {| creds := creds w;
        mask := mask w;
        log := log w ++ [user_failed (PyInt u) EPERM;
                         group_failed (PyInt g) EPERM] |}).
Proof.
  intros Heuid Hu Hru Hsu Hg Hrg Hsg.
  unfold SetProcessOwner, attempt, as_id, sys_setuid, sys_setgid.
  destruct (Z.ltb_spec u (-1)); [lia|].
  destruct (Z.ltb_spec 4294967295 u); [lia|].
  destruct (Z.ltb_spec g (-1)); [lia|].
  destruct (Z.ltb_spec 4294967295 g); [lia|]. simpl.
  destruct (Z.eqb_spec u (-1)); [lia|].
  destruct (Z.eqb_spec u 4294967295); [lia|].
  destruct (Z.eqb_spec g (-1)); [lia|].
  destruct (Z.eqb_spec g 4294967295); [lia|]. simpl.
  destruct (Z.eqb_spec (euid (creds w)) 0); [done|].
  destruct (Z.eqb_spec u (ruid (creds w))); [done|].
  destruct (Z.eqb_spec u (suid (creds w))); [done|]. simpl.
  destruct (Z.eqb_spec (euid (creds w)) 0); [done|].
  destruct (Z.eqb_spec g (rgid (creds w))); [done|].
  destruct (Z.eqb_spec g (sgid (creds w))); [done|]. simpl.
  by rewrite <- app_assoc.
Qed.

(** X26.  Names that the host can encode, with no null byte, and
    that its databases do not hold are resolved to [None], and [None]
    makes [SetProcessOwner] skip the change: a privilege drop to such
    a user and group returns normally, changes nothing and logs
    nothing, logger or not. *)
Theorem SetProcessOwner_of_unknown_names
    h user group encoded_user encoded_group logger w :
  fsencode h user = Some encoded_user →
  has_nul encoded_user = false →
  users h !! encoded_user = None →
  fsencode h group = Some encoded_group →
  has_nul encoded_group = false →
  groups h !! encoded_group = None →
  ∃ uid gid,
    GetUserId h (PyStr user) = Ok uid
    ∧ GetGroupId h (PyStr group) = Ok gid
    ∧ SetProcessOwner (name h) uid gid logger w = (Ok tt, w).
Proof.
  intros Hu Hunul Hnu Hg Hgnul Hng. exists PyNone, PyNone.
  unfold GetUserId, GetGroupId, getnam. simpl.
  rewrite Hu, Hunul, Hnu, Hg, Hgnul, Hng.
  by destruct (name h).
Qed.

(** X27.  [SetProcessUmask] on a POSIX host, given an integer of C
    [int] range, returns normally and sets the mask to the nine
    permission bits of its argument, a number from 0 to 511; a second
    call with the same argument changes nothing. *)
Theorem SetProcessUmask_sets_permission_bits m logger w :
  -2147483648 ≤ m ≤ 2147483647 →
  SetProcessUmask posix (PyInt m) logger w
  = (Ok tt, {| creds := creds w; mask := Z.land m 511; log := log w |})
  ∧ 0 ≤ Z.land m 511 ≤ 511
  ∧ (∀ i, 0 ≤ i →
          Z.testbit (Z.land m 511) i = Z.testbit m i && (i <? 9))
  ∧ SetProcessUmask posix (PyInt m) logger
      (SetProcessUmask posix (PyInt m) logger w).2
    = SetProcessUmask posix (PyInt m) logger w.
Proof.
  intros Hm.
  assert (∀ w', SetProcessUmask posix (PyInt m) logger w'
                = (Ok tt, {| creds := creds w'; mask := Z.land m 511;
                             log := log w' |})) as Hcall.
  { intros w'. unfold SetProcessUmask, os_umask, as_c_int.
    destruct (Z.ltb_spec m (-2147483648)); [lia|].
    by destruct (Z.ltb_spec 2147483647 m); [lia|]. }
  split; [apply Hcall|]. split; [|split].
  - change (Z.land m 511) with (Z.land m (Z.ones 9)).
    rewrite Z.land_ones by lia.
    change (2 ^ 9) with 512. pose proof (Z.mod_pos_bound m 512). lia.
  - intros i Hi. change 511 with (Z.ones 9).
    rewrite Z.land_spec. f_equal.
    destruct (Z.ltb_spec i 9).
    + apply Z.ones_spec_low. lia.
    + apply Z.ones_spec_high. lia.
  - by rewrite !Hcall.
Qed.

End PrivilegeFacts.

(** X22 at root dropping to user 1000 and group 2. *)
Lemma SetProcessOwner_as_root_keeps_group_witness :
  Privilege.SetProcessOwner posix (PyInt 1000) (PyInt 2) true as_root
  = (Ok tt,
     {| Privilege.creds :=
          {| Privilege.ruid := 1000; Privilege.euid := 1000;
             Privilege.suid := 1000;
             Privilege.rgid := 0; Privilege.egid := 0;
             Privilege.sgid := 0 |};
        Privilege.mask := 18;
        Privilege.log := [Privilege.group_failed (PyInt 2) Privilege.EPERM] |}).
Proof.
  apply (SetProcessOwner_as_root_keeps_group 1000 2 true as_root);
    simpl; lia || reflexivity.
Defined.

(** X23 at the same identifiers, group first. *)
Lemma SetProcessOwner_group_then_user_witness :
  Privilege.SetProcessOwner posix (PyInt 1000) PyNone true
    (Privilege.SetProcessOwner posix PyNone (PyInt 2) true as_root).2
  = (Ok tt,
     {| Privilege.creds :=
          {| Privilege.ruid := 1000; Privilege.euid := 1000;
             Privilege.suid := 1000;
             Privilege.rgid := 2; Privilege.egid := 2;
             Privilege.sgid := 2 |};
        Privilege.mask := 18;
        Privilege.log := [] |}).
Proof.
  apply (SetProcessOwner_group_then_user 1000 2 true as_root);
    simpl; lia || reflexivity.
Defined.

(** X24 at the identifier -1, which the kernel refuses. *)
Lemma SetProcessOwner_never_raises_witness :
  (Privilege.SetProcessOwner posix (PyInt (-1)) (PyInt 4294967295) false
     as_root).1 = Ok tt
  ∧ Privilege.mask
      (Privilege.SetProcessOwner posix (PyInt (-1)) (PyInt 4294967295) false
         as_root).2 = Privilege.mask as_root
  ∧ (false = false →
     Privilege.log
       (Privilege.SetProcessOwner posix (PyInt (-1)) (PyInt 4294967295) false
          as_root).2 = Privilege.log as_root).
Proof.
  apply (SetProcessOwner_never_raises posix (PyInt (-1)) (PyInt 4294967295)
           false as_root); simpl; lia.
Defined.

(** X25 at the user [monitor] asking to become root. *)
Lemma SetProcessOwner_unprivileged_witness :
  Privilege.SetProcessOwner posix (PyInt 0) (PyInt 0) true as_monitor
  = (Ok tt,
     {| Privilege.creds := Privilege.creds as_monitor;
        Privilege.mask := Privilege.mask as_monitor;
        Privilege.log :=
          Privilege.log as_monitor
          ++ [Privilege.user_failed (PyInt 0) Privilege.EPERM;
              Privilege.group_failed (PyInt 0) Privilege.EPERM] |}).
Proof.
  apply (SetProcessOwner_unprivileged 0 0 as_monitor); simpl; lia.
Defined.

(** X26 at two names the sample host does not know. *)
Lemma SetProcessOwner_of_unknown_names_witness :
  ∃ uid gid,
    Identity.GetUserId server (PyStr "nobody") = Ok uid
    ∧ Identity.GetGroupId server (PyStr "nogroup") = Ok gid
    ∧ Privilege.SetProcessOwner (Identity.name server) uid gid true as_root
      = (Ok tt, as_root).
Proof.
  apply (SetProcessOwner_of_unknown_names server "nobody" "nogroup"
           "nobody" "nogroup" true as_root); reflexivity.
Defined.

(** X27 at the mask 0o27. *)
Lemma SetProcessUmask_sets_permission_bits_witness :
  Privilege.SetProcessUmask posix (PyInt 23) true as_root
  = (Ok tt, {| Privilege.creds := Privilege.creds as_root;
               Privilege.mask := Z.land 23 511;
               Privilege.log := Privilege.log as_root |})
  ∧ 0 ≤ Z.land 23 511 ≤ 511
  ∧ (∀ i, 0 ≤ i →
          Z.testbit (Z.land 23 511) i = Z.testbit 23 i && (i <? 9))
  ∧ Privilege.SetProcessUmask posix (PyInt 23) true
      (Privilege.SetProcessUmask posix (PyInt 23) true as_root).2
    = Privilege.SetProcessUmask posix (PyInt 23) true as_root.
Proof.
  apply (SetProcessUmask_sets_permission_bits 23 true as_root). lia.
Defined.
